(** * Router bootstrap coordinator (modules/@angular/router/src/router_module.ts)

    A shallow embedding of the router module: the provider lists built by
    [RouterModule.forRoot] and [RouterModule.forChild], the factories
    [provideLocationStrategy], [provideForRootGuard] and [setupRouter], and
    the two lifecycle hooks of [RouterInitializer].

    Services the module only talks to (the Router engine, the preloader, the
    console, rxjs subjects, promises) appear as plain data: the calls made on
    them are recorded in order, and the little state this module depends on
    (a promise being pending, a subject being stopped) is kept explicitly. *)

From stdpp Require Import base list strings.

(** ** Values held by untyped slots *)

(** Router state snapshots, components, component types and the injected
    services are objects; only their identity matters here. *)
Definition RouterStateSnapshot : Type := nat.
Definition ComponentRef : Type := nat.
Definition ComponentType : Type := nat.
Definition PlatformLocation : Type := nat.
Definition ApplicationRefHandle : Type := nat.
Definition UrlSerializer : Type := nat.
Definition RouterOutletMap : Type := nat.
Definition Location : Type := nat.
Definition Injector : Type := nat.
Definition NgModuleFactoryLoader : Type := nat.
Definition Compiler : Type := nat.
Definition Route : Type := string.
Definition Routes : Type := list Route.

(** What a slot typed [any], or a field that may not have been assigned yet,
    can hold in this module. *)
Inductive value : Type :=
  | undefined
  | null
  | boolean (b : bool)
  | snapshot (s : RouterStateSnapshot).

Global Instance value_eq_dec : EqDecision value.
Proof. solve_decision. Defined.

(** The test performed by [if (v)], [!v] and [v ? a : b]. *)
Definition truthy (v : value) : bool :=
  match v with
  | undefined | null => false
  | boolean b => b
  | snapshot _ => true
  end.

(** An optional boolean property [o.p?: boolean] used as a condition. *)
Definition truthy_flag (p : option bool) : bool :=
  match p with
  | Some true => true
  | _ => false
  end.

(** [p === false] on an optional boolean property. *)
Definition strictly_false (p : option bool) : bool :=
  match p with
  | Some false => true
  | _ => false
  end.

(** ** Tokens and options *)

Inductive Token : Type :=
  | tLocation | tUrlSerializer | tDefaultUrlSerializer | tRouter
  | tApplicationRef | tRouterOutletMap | tInjector | tNgModuleFactoryLoader
  | tSystemJsNgModuleLoader | tCompiler | tROUTES | tROUTER_CONFIGURATION
  | tROUTER_FORROOT_GUARD | tActivatedRoute | tRouterPreloader
  | tNoPreloading | tPreloadAllModules | tPreloadingStrategy
  | tLocationStrategy | tPlatformLocation | tAPP_BASE_HREF
  | tANALYZE_FOR_ENTRY_COMPONENTS | tAPP_INITIALIZER
  | tAPP_BOOTSTRAP_LISTENER | tROUTER_INITIALIZER | tRouterInitializer
  | tRouterModule
  | tUser (id : nat).

Global Instance Token_eq_dec : EqDecision Token.
Proof. solve_decision. Defined.

(** The Router's error handler: its own default, or one supplied by the
    application. *)
Inductive ErrorHandler : Type :=
  | defaultErrorHandler
  | customErrorHandler (id : nat).

Global Instance ErrorHandler_eq_dec : EqDecision ErrorHandler.
Proof. solve_decision. Defined.

(** [interface ExtraOptions]: every property is optional. *)
Record ExtraOptions : Type := mkExtraOptions {
  enableTracing : option bool;
  useHash : option bool;
  initialNavigation : option bool;
  errorHandler : option ErrorHandler;
  preloadingStrategy : option Token;
}.

Global Instance ExtraOptions_eq_dec : EqDecision ExtraOptions.
Proof. solve_decision. Defined.

(** The object literal [{}]. *)
Definition emptyOptions : ExtraOptions :=
  mkExtraOptions None None None None None.

(** The object literal [{enableTracing: false}]. *)
Definition tracingOffOptions : ExtraOptions :=
  mkExtraOptions (Some false) None None None None.

(** A parameter declared [options: ExtraOptions = {}]. *)
Definition orEmpty (o : option ExtraOptions) : ExtraOptions :=
  default emptyOptions o.

(** ** Providers *)

Inductive Factory : Type :=
  | fSetupRouter | fRootRoute | fProvideForRootGuard
  | fProvideLocationStrategy | fGetAppInitializer | fGetBootstrapListener.

Global Instance Factory_eq_dec : EqDecision Factory.
Proof. solve_decision. Defined.

(** One entry of a [deps] array, with its [Optional] and [SkipSelf] marks. *)
Record Dep : Type := mkDep {
  depToken : Token;
  depOptional : bool;
  depSkipSelf : bool;
}.

Global Instance Dep_eq_dec : EqDecision Dep.
Proof. solve_decision. Defined.

Definition dep (t : Token) : Dep := mkDep t false false.

Inductive Provided : Type :=
  | configValue (o : ExtraOptions)
  | routesValue (r : Routes).

Global Instance Provided_eq_dec : EqDecision Provided.
Proof. solve_decision. Defined.

Inductive Recipe : Type :=
  | useClass (c : Token)
  | useValue (v : Provided)
  | useFactory (f : Factory) (deps : list Dep)
  | useExisting (t : Token).

Global Instance Recipe_eq_dec : EqDecision Recipe.
Proof. solve_decision. Defined.

Record Provider : Type := mkProvider {
  provide : Token;
  multi : bool;
  recipe : Recipe;
}.

Global Instance Provider_eq_dec : EqDecision Provider.
Proof. solve_decision. Defined.

(** A class listed by itself provides itself. *)
Definition classProvider (c : Token) : Provider := mkProvider c false (useClass c).

Definition ROUTER_PROVIDERS : list Provider :=
  [ classProvider tLocation;
    mkProvider tUrlSerializer false (useClass tDefaultUrlSerializer);
    mkProvider tRouter false
      (useFactory fSetupRouter
         [ dep tApplicationRef; dep tUrlSerializer; dep tRouterOutletMap;
           dep tLocation; dep tInjector; dep tNgModuleFactoryLoader;
           dep tCompiler; dep tROUTES; dep tROUTER_CONFIGURATION ]);
    classProvider tRouterOutletMap;
    mkProvider tActivatedRoute false (useFactory fRootRoute [dep tRouter]);
    mkProvider tNgModuleFactoryLoader false (useClass tSystemJsNgModuleLoader);
    classProvider tRouterPreloader;
    classProvider tNoPreloading;
    classProvider tPreloadAllModules;
    mkProvider tROUTER_CONFIGURATION false (useValue (configValue tracingOffOptions)) ].

Definition provideRoutes (routes : Routes) : list Provider :=
  [ mkProvider tANALYZE_FOR_ENTRY_COMPONENTS true (useValue (routesValue routes));
    mkProvider tROUTES true (useValue (routesValue routes)) ].

Definition provideRouterInitializer : list Provider :=
  [ classProvider tRouterInitializer;
    mkProvider tAPP_INITIALIZER true
      (useFactory fGetAppInitializer [dep tRouterInitializer]);
    mkProvider tROUTER_INITIALIZER false
      (useFactory fGetBootstrapListener [dep tRouterInitializer]);
    mkProvider tAPP_BOOTSTRAP_LISTENER true (useExisting tROUTER_INITIALIZER) ].

Record ModuleWithProviders : Type := mkModule {
  ngModule : Token;
  providers : list Provider;
}.

(** [config && config.preloadingStrategy ? config.preloadingStrategy : NoPreloading] *)
Definition selectPreloading (config : option ExtraOptions) : Token :=
  match config with
  | Some c =>
      match preloadingStrategy c with
      | Some s => s
      | None => tNoPreloading
      end
  | None => tNoPreloading
  end.

(** [RouterModule.forRoot]; nested provider arrays are written flat, in the
    order of the source. *)
Definition forRoot (routes : Routes) (config : option ExtraOptions) : ModuleWithProviders :=
  mkModule tRouterModule
    (ROUTER_PROVIDERS ++ provideRoutes routes ++
     [ mkProvider tROUTER_FORROOT_GUARD false
         (useFactory fProvideForRootGuard [mkDep tRouter true true]);
       mkProvider tROUTER_CONFIGURATION false
         (useValue (configValue (match config with Some c => c | None => emptyOptions end)));
       mkProvider tLocationStrategy false
         (useFactory fProvideLocationStrategy
            [ dep tPlatformLocation; mkDep tAPP_BASE_HREF true false;
              dep tROUTER_CONFIGURATION ]);
       mkProvider tPreloadingStrategy false (useExisting (selectPreloading config)) ] ++
     provideRouterInitializer).

(** [RouterModule.forChild] *)
Definition forChild (routes : Routes) : ModuleWithProviders :=
  mkModule tRouterModule (provideRoutes routes).

(** ** Location strategy *)

Inductive LocationStrategy : Type :=
  | HashLocationStrategy (platformLocation : PlatformLocation) (baseHref : string)
  | PathLocationStrategy (platformLocation : PlatformLocation) (baseHref : string).

Global Instance LocationStrategy_eq_dec : EqDecision LocationStrategy.
Proof. solve_decision. Defined.

Definition provideLocationStrategy (platformLocationStrategy : PlatformLocation)
    (baseHref : string) (options : option ExtraOptions) : LocationStrategy :=
  if truthy_flag (useHash (orEmpty options))
  then HashLocationStrategy platformLocationStrategy baseHref
  else PathLocationStrategy platformLocationStrategy baseHref.

(** ** Root guard *)

(** The outcome of a call that may throw. *)
Inductive Outcome (A : Type) : Type :=
  | Returns (a : A)
  | Throws (message : string).
Arguments Returns {A} a.
Arguments Throws {A} message.

(** A Router instance, as far as the guard is concerned. *)
Definition RouterRef : Type := nat.

(** [router] is [None] when the optional lookup found nothing (null). *)
Definition provideForRootGuard (router : option RouterRef) : Outcome string :=
  match router with
  | Some _ =>
      Throws "RouterModule.forRoot() called twice. Lazy loaded modules should use RouterModule.forChild() instead."
  | None => Returns "guarded"
  end.

(** ** Resolution of providers *)

(** Modelled from the spec: the dependency-injection container is not part
    of these sources.  It resolves providers by token, a later registration
    of a token wins over an earlier one, multi-valued tokens accumulate their
    contributions in registration order, and a dependency marked SkipSelf is
    looked up in the ancestor scopes only. *)
Definition providersFor (t : Token) (ps : list Provider) : list Provider :=
  filter (λ p, provide p = t) ps.

(** Modelled from the spec: the container's lookup of a single-valued
    token, absent from these sources; the last registration wins. *)
Definition resolveRecipe (t : Token) (ps : list Provider) : option Recipe :=
  recipe <$> last (providersFor t ps).

(** Modelled from the spec: the container's lookup of a multi-valued token,
    absent from these sources; all contributions, in registration order. *)
Definition resolveMulti (t : Token) (ps : list Provider) : list Recipe :=
  recipe <$> providersFor t ps.

(** The [Route[][]] handed to the Router factory: the contributions to the
    multi-valued [ROUTES] token. *)
Definition contributedRoutes (ps : list Provider) : list Routes :=
  flat_map (λ r, match r with useValue (routesValue rs) => [rs] | _ => [] end)
           (resolveMulti tROUTES ps).

Definition configurationOf (ps : list Provider) : option ExtraOptions :=
  match resolveRecipe tROUTER_CONFIGURATION ps with
  | Some (useValue (configValue o)) => Some o
  | _ => None
  end.

(** A module registers the router either as root or as child. *)
Inductive Registration : Type :=
  | registerRoot (routes : Routes) (config : option ExtraOptions)
  | registerChild (routes : Routes).

Definition registrationProviders (r : Registration) : list Provider :=
  match r with
  | registerRoot routes config => providers (forRoot routes config)
  | registerChild routes => providers (forChild routes)
  end.

(** The registrations imported into one injector (the application module
    with its eager imports, or one lazily loaded module). *)
Definition Layer : Type := list Registration.

Definition layerProviders (l : Layer) : list Provider :=
  flat_map registrationProviders l.

(** A layer of child registrations only, one per route table. *)
Definition childLayer (kids : list Routes) : Layer := registerChild <$> kids.

(** A layer with exactly one root registration among child registrations. *)
Definition rootLayer (before : list Routes) (routes : Routes)
    (config : option ExtraOptions) (after : list Routes) : Layer :=
  childLayer before ++ registerRoot routes config :: childLayer after.

(** Modelled from the spec: hierarchical lookup of the Router by the
    container, absent from these sources.  Scopes are listed innermost
    first; a Router instance is named by the depth of the scope that
    provides it. *)
Fixpoint findRouter (scopes : list (list Provider)) : option RouterRef :=
  match scopes with
  | [] => None
  | ps :: outer =>
      match resolveRecipe tRouter ps with
      | Some _ => Some (length outer)
      | None => findRouter outer
      end
  end.

Definition resolveRouterDep (d : Dep) (scopes : list (list Provider)) : option RouterRef :=
  findRouter (if depSkipSelf d then tail scopes else scopes).

(** Modelled from the spec: what the container, absent from these sources,
    does when [RouterModule] is instantiated in the innermost scope and asks
    for the optional [ROUTER_FORROOT_GUARD].  A scope that registers the
    guard runs its factory on the Router found in the ancestor scopes;
    otherwise the value, if any, was already made by an ancestor. *)
Definition instantiateGuard (scopes : list (list Provider)) : Outcome (option string) :=
  match scopes with
  | [] => Returns None
  | ps :: _ =>
      match resolveRecipe tROUTER_FORROOT_GUARD ps with
      | Some (useFactory fProvideForRootGuard [d]) =>
          match provideForRootGuard (resolveRouterDep d scopes) with
          | Returns g => Returns (Some g)
          | Throws m => Throws m
          end
      | _ => Returns None
      end
  end.

(** Modelled from the spec: module composition by the container, absent
    from these sources, along a chain of injectors, outermost layer first;
    the guard runs once per layer. *)
Fixpoint composeUnder (outer : list (list Provider)) (layers : list Layer) : Outcome unit :=
  match layers with
  | [] => Returns ()
  | l :: rest =>
      let scopes := layerProviders l :: outer in
      match instantiateGuard scopes with
      | Throws m => Throws m
      | Returns _ => composeUnder scopes rest
      end
  end.

Definition compose (layers : list Layer) : Outcome unit := composeUnder [] layers.

(** ** Router factory *)

(** A router lifecycle event: the name of its class and its rendering by
    [toString]. *)
Record Event : Type := mkEvent {
  constructorName : string;
  eventText : string;
}.

Global Instance Event_eq_dec : EqDecision Event.
Proof. solve_decision. Defined.

Inductive ConsoleCall : Type :=
  | consoleGroup (label : string)
  | consoleLogText (text : string)
  | consoleLogObject (e : Event)
  | consoleGroupEnd.

(** Observers of the router's event stream: the listener installed by
    [setupRouter], or a subscriber of the application. *)
Inductive Subscriber : Type :=
  | tracingSubscriber
  | otherSubscriber (id : nat).

Global Instance Subscriber_eq_dec : EqDecision Subscriber.
Proof. solve_decision. Defined.

(** The function held by [router.hooks.afterPreactivation]: the Router's own,
    or the closure installed by [appInitializer], which remembers the
    [resolve] function of the promise it created. *)
Inductive Hook : Type :=
  | defaultHook
  | initializerHook (resolve : nat).

Global Instance Hook_eq_dec : EqDecision Hook.
Proof. solve_decision. Defined.

(** Modelled from the spec: class Router is not part of these sources.  It is
    built from the collaborators it is given and the flattened route table,
    and exposes a mutable error handler (with a default), an event stream and
    the after-preactivation slot. *)
Record Router : Type := mkRouter {
  router_rootComponentType : option ComponentType;
  router_urlSerializer : UrlSerializer;
  router_outletMap : RouterOutletMap;
  router_location : Location;
  router_injector : Injector;
  router_loader : NgModuleFactoryLoader;
  router_compiler : Compiler;
  router_config : Routes;
  router_errorHandler : ErrorHandler;
  router_events : list Subscriber;
  router_afterPreactivation : Hook;
}.

Definition newRouter (rootComponentType : option ComponentType)
    (urlSerializer : UrlSerializer) (outletMap : RouterOutletMap)
    (location : Location) (injector : Injector) (loader : NgModuleFactoryLoader)
    (compiler : Compiler) (config : Routes) : Router :=
  mkRouter rootComponentType urlSerializer outletMap location injector loader
           compiler config defaultErrorHandler [] defaultHook.

Definition setErrorHandler (h : ErrorHandler) (r : Router) : Router :=
  mkRouter (router_rootComponentType r) (router_urlSerializer r) (router_outletMap r)
           (router_location r) (router_injector r) (router_loader r)
           (router_compiler r) (router_config r) h (router_events r)
           (router_afterPreactivation r).

(** [r.events.subscribe(...)]: a new observer goes to the end of the list. *)
Definition subscribe (s : Subscriber) (r : Router) : Router :=
  mkRouter (router_rootComponentType r) (router_urlSerializer r) (router_outletMap r)
           (router_location r) (router_injector r) (router_loader r)
           (router_compiler r) (router_config r) (router_errorHandler r)
           (router_events r ++ [s]) (router_afterPreactivation r).

Definition setAfterPreactivation (h : Hook) (r : Router) : Router :=
  mkRouter (router_rootComponentType r) (router_urlSerializer r) (router_outletMap r)
           (router_location r) (router_injector r) (router_loader r)
           (router_compiler r) (router_config r) (router_errorHandler r)
           (router_events r) h.

Definition setRootComponentType (t : option ComponentType) (r : Router) : Router :=
  mkRouter t (router_urlSerializer r) (router_outletMap r)
           (router_location r) (router_injector r) (router_loader r)
           (router_compiler r) (router_config r) (router_errorHandler r)
           (router_events r) (router_afterPreactivation r).

(** Modelled from the spec: [flatten] of utils/collection is not part of
    these sources.  The flattened route table is the concatenation of all
    contributed route tables in registration order. *)
Definition flatten {A : Type} (a : list (list A)) : list A := concat a.

(** The body of the listener subscribed when tracing is on. *)
Definition tracingListener (e : Event) : list ConsoleCall :=
  [ consoleGroup ("Router Event: " +:+ constructorName e);
    consoleLogText (eventText e);
    consoleLogObject e;
    consoleGroupEnd ].

Definition setupRouter (ref : ApplicationRefHandle) (urlSerializer : UrlSerializer)
    (outletMap : RouterOutletMap) (location : Location) (injector : Injector)
    (loader : NgModuleFactoryLoader) (compiler : Compiler)
    (config : list Routes) (opts : option ExtraOptions) : Router :=
  let opts := orEmpty opts in
  let r := newRouter None urlSerializer outletMap location injector loader compiler
                     (flatten config) in
  let r := match errorHandler opts with
           | Some h => setErrorHandler h r
           | None => r
           end in
  let r := if truthy_flag (enableTracing opts) then subscribe tracingSubscriber r else r in
  r.

(** ** The event stream seen by its observers *)

(** What the application does next with the router: the engine emits an
    event, somebody subscribes to the event stream, or the application
    writes to the console itself. *)
Inductive Action : Type :=
  | emits (e : Event)
  | subscribes (id : nat)
  | writes (out : list ConsoleCall).

(** Who made a console call.  The console shows the calls only; the writer
    is kept beside each call to tell the listener's output from the rest. *)
Inductive Writer : Type :=
  | byTracingListener
  | byApplication.

Global Instance Writer_eq_dec : EqDecision Writer.
Proof. solve_decision. Defined.

Definition written (who : Writer) (out : list ConsoleCall) : list (Writer * ConsoleCall) :=
  (λ c, (who, c)) <$> out.

(** The calls of one writer, in the order they were made. *)
Definition consoleBy (who : Writer) (c : list (Writer * ConsoleCall)) : list ConsoleCall :=
  snd <$> filter (λ x, x.1 = who) c.

Section EventStream.
(** Everything the application can observe of itself. *)
Context {W : Type}.
(** What subscriber [id] does on receiving an event: it changes the
    application state and may write to the console. *)
Variable handler : nat → Event → W → W * list ConsoleCall.
(** The next move of the application, if any. *)
Variable engine : W → option (Action * W).

Record Observation : Type := mkObservation {
  app : W;
  console : list (Writer * ConsoleCall);
  deliveries : list (nat * Event);
  emissions : list Event;
}.

(** The callback subscribed by [setupRouter], run on an event. *)
Definition tracingCallback (e : Event) (x : Observation) : Observation :=
  mkObservation (app x) (console x ++ written byTracingListener (tracingListener e))
                (deliveries x) (emissions x).

Definition notify (e : Event) (x : Observation) (s : Subscriber) : Observation :=
  match s with
  | tracingSubscriber => tracingCallback e x
  | otherSubscriber id =>
      let '(w, out) := handler id e (app x) in
      mkObservation w (console x ++ written byApplication out)
                    (deliveries x ++ [(id, e)]) (emissions x)
  end.

(** [events.next(e)]: every observer is notified, in subscription order. *)
Definition emit (e : Event) (observers : list Subscriber) (x : Observation) : Observation :=
  foldl (notify e)
        (mkObservation (app x) (console x) (deliveries x) (emissions x ++ [e]))
        observers.

Definition setApp (w : W) (x : Observation) : Observation :=
  mkObservation w (console x) (deliveries x) (emissions x).

Definition writeOut (out : list ConsoleCall) (x : Observation) : Observation :=
  mkObservation (app x) (console x ++ written byApplication out)
                (deliveries x) (emissions x).

Fixpoint drive (fuel : nat) (r : Router) (x : Observation) : Router * Observation :=
  match fuel with
  | 0 => (r, x)
  | S fuel =>
      match engine (app x) with
      | None => (r, x)
      | Some (emits e, w) => drive fuel r (emit e (router_events r) (setApp w x))
      | Some (subscribes id, w) => drive fuel (subscribe (otherSubscriber id) r) (setApp w x)
      | Some (writes out, w) => drive fuel r (writeOut out (setApp w x))
      end
  end.

Definition start (w : W) : Observation := mkObservation w [] [] [].
End EventStream.

Definition setEvents (observers : list Subscriber) (r : Router) : Router :=
  mkRouter (router_rootComponentType r) (router_urlSerializer r) (router_outletMap r)
           (router_location r) (router_injector r) (router_loader r)
           (router_compiler r) (router_config r) (router_errorHandler r)
           observers (router_afterPreactivation r).

Definition isOther (s : Subscriber) : Prop :=
  match s with
  | otherSubscriber _ => True
  | tracingSubscriber => False
  end.

(** The traced run and the plain run agree on everything but the listener's
    own output: same application state, same events emitted, same deliveries
    to the application's subscribers, same Router apart from the tracing
    observer, which comes first, and the same console calls by the
    application and its subscribers in the same order.  The plain console
    holds nothing else; the traced console holds in addition, written by the
    listener, one group per emitted event in emission order: the group label
    with the name of the event's class, the event's text, the event itself,
    and the end of the group. *)
Definition passiveOver {W : Type} (traced plain : Router * @Observation W) : Prop :=
  app traced.2 = app plain.2
  ∧ emissions traced.2 = emissions plain.2
  ∧ deliveries traced.2 = deliveries plain.2
  ∧ traced.1 = setEvents (tracingSubscriber :: router_events plain.1) plain.1
  ∧ Forall isOther (router_events plain.1)
  ∧ consoleBy byApplication (console traced.2) = snd <$> console plain.2
  ∧ consoleBy byTracingListener (console plain.2) = []
  ∧ consoleBy byTracingListener (console traced.2)
    = flat_map (λ e, [ consoleGroup ("Router Event: " +:+ constructorName e);
                       consoleLogText (eventText e);
                       consoleLogObject e;
                       consoleGroupEnd ])
               (emissions traced.2).

(** ** RouterInitializer *)

Module Rx.
(** An rxjs subject, as far as this module uses it: once stopped it emits
    nothing more. *)
Record Subject : Type := mkSubject {
  isStopped : bool;
  emitted : list value;
}.

Definition fresh : Subject := mkSubject false [].

Definition next (v : value) (s : Subject) : Subject :=
  if isStopped s then s else mkSubject false (emitted s ++ [v]).

Definition complete (s : Subject) : Subject := mkSubject true (emitted s).
End Rx.

(** What the interception hands back to the engine: the held subject, or
    [of (s)], which delivers [s] at once. *)
Inductive Observable : Type :=
  | resultSubject
  | ofValue (v : value).

Inductive PromiseState : Type :=
  | pending
  | fulfilled (v : value)
  | rejected (reason : string).

Global Instance PromiseState_eq_dec : EqDecision PromiseState.
Proof. solve_decision. Defined.

(** Calls made on the Router and on the preloader. *)
Inductive Call : Type :=
  | callSetUpLocationChangeListener
  | callInitialNavigation
  | callSetUpPreloading
  | callResetRootComponentType (t : option ComponentType).

Record ApplicationRef : Type := mkApplicationRef {
  components : list ComponentRef;
  componentTypes : list ComponentType;
}.

(** The [RouterInitializer] instance together with what it reaches through
    its injector. *)
Record World : Type := mkWorld {
  initSnapshot : value;
  resultOfPreactivationDone : Rx.Subject;
  router : Router;
  promises : list PromiseState;
  calls : list Call;
}.

Definition initialWorld (r : Router) : World :=
  mkWorld undefined Rx.fresh r [] [].

(** Calling the [resolve] function of promise [k]: only a pending promise
    changes. *)
Definition settle (k : nat) (v : value) (ps : list PromiseState) : list PromiseState :=
  match ps !! k with
  | Some pending => <[k := fulfilled v]> ps
  | _ => ps
  end.

(** The closure assigned to [router.hooks.afterPreactivation]. *)
Definition interception (resolve : nat) (s : value) (w : World) : Observable * World :=
  if negb (truthy (initSnapshot w)) then
    (resultSubject,
     mkWorld s (resultOfPreactivationDone w) (router w)
             (settle resolve (boolean true) (promises w)) (calls w))
  else (ofValue s, w).

(** The engine reaching the end of preactivation with snapshot [s]: it calls
    whatever the slot holds.  [None] means the Router's own hook ran. *)
Definition afterPreactivation (s : value) (w : World) : option Observable * World :=
  match router_afterPreactivation (router w) with
  | defaultHook => (None, w)
  | initializerHook resolve =>
      let '(o, w') := interception resolve s w in (Some o, w')
  end.

(** How the location-ready promise [p] settles. *)
Inductive Settlement : Type :=
  | settlesOk
  | settlesFailed (reason : string).

(** The promise returned by [appInitializer]: [p.then(...)] follows the
    promise [res] its callback returns, or fails as [p] did. *)
Inductive Returned : Type :=
  | follows (res : nat)
  | failedWith (reason : string).

(** The callback given to [p.then]. *)
Definition appInitializerBody (opts : ExtraOptions) (w : World) : nat * World :=
  let res := length (promises w) in
  let ps := promises w ++ [pending] in
  if strictly_false (initialNavigation opts) then
    (res,
     mkWorld (initSnapshot w) (resultOfPreactivationDone w) (router w) ps
             (calls w ++ [callSetUpLocationChangeListener]))
  else
    (res,
     mkWorld (initSnapshot w) (resultOfPreactivationDone w)
             (setAfterPreactivation (initializerHook res) (router w)) ps
             (calls w ++ [callInitialNavigation])).

Definition appInitializer (p : Settlement) (opts : ExtraOptions) (w : World) : Returned * World :=
  match p with
  | settlesOk => let '(res, w') := appInitializerBody opts w in (follows res, w')
  | settlesFailed reason => (failedWith reason, w)
  end.

Definition isSettled (p : PromiseState) : bool :=
  match p with
  | pending => false
  | _ => true
  end.

Definition returnedSettled (ret : Returned) (w : World) : bool :=
  match ret with
  | follows res => from_option isSettled false (promises w !! res)
  | failedWith _ => true
  end.

Definition bootstrapListener (ref : ApplicationRef) (bootstrappedComponentRef : ComponentRef)
    (w : World) : World :=
  if decide (Some bootstrappedComponentRef ≠ head (components ref)) then w
  else
    let t := head (componentTypes ref) in
    mkWorld (initSnapshot w)
            (Rx.complete (Rx.next (initSnapshot w) (resultOfPreactivationDone w)))
            (setRootComponentType t (router w))
            (promises w)
            (calls w ++ [callSetUpPreloading; callResetRootComponentType t]).

(** ** Runs of the startup protocol *)

(** What can happen during startup: the location-ready promise settles and
    the initializer's callback runs, the engine finishes a preactivation and
    calls the hook with the snapshot object of that navigation, or the host
    reports an attached component together with the application's current
    component lists. *)
Inductive Step : Type :=
  | runAppInitializer (p : Settlement)
  | preactivation (s : RouterStateSnapshot)
  | bootstrapped (ref : ApplicationRef) (c : ComponentRef).

Definition step (opts : ExtraOptions) (w : World) (e : Step) : World :=
  match e with
  | runAppInitializer p => (appInitializer p opts w).2
  | preactivation s => (afterPreactivation (snapshot s) w).2
  | bootstrapped ref c => bootstrapListener ref c w
  end.

Definition run (opts : ExtraOptions) (es : list Step) (w : World) : World :=
  foldl (step opts) w es.

Definition fulfilledPromise (p : PromiseState) : bool :=
  match p with
  | fulfilled _ => true
  | _ => false
  end.

(** Some promise returned by the initializer has been fulfilled. *)
Definition earlyPhaseFulfilled (w : World) : bool :=
  existsb fulfilledPromise (promises w).

(** The host attaches a view only after an initializer promise has been
    fulfilled; the initializer and navigations may happen at any time. *)
Definition permitted (w : World) (e : Step) : bool :=
  match e with
  | bootstrapped _ _ => earlyPhaseFulfilled w
  | _ => true
  end.

Fixpoint hostRun (opts : ExtraOptions) (es : list Step) (w : World) : option World :=
  match es with
  | [] => Some w
  | e :: rest =>
      if permitted w e then hostRun opts rest (step opts w e) else None
  end.

(** [initSnapshot] holds a snapshot, as tested by the interception. *)
Definition isSet (v : value) : Prop := truthy v = true.

(** The subject has emitted a value or has been completed. *)
Definition resolved (s : Rx.Subject) : Prop :=
  Rx.isStopped s = true ∨ Rx.emitted s ≠ [].

Definition isBootstrapped (e : Step) : Prop :=
  match e with
  | bootstrapped _ _ => True
  | _ => False
  end.

(** The slot holds the closure of [appInitializer]. *)
Definition intercepting (w : World) : Prop :=
  ∃ k, router_afterPreactivation (router w) = initializerHook k.

(** What holds in every state the host can reach. *)
Record Ordered (w : World) : Prop := mkOrdered {
  fulfilled_after_capture : earlyPhaseFulfilled w = true → isSet (initSnapshot w);
  resolved_after_capture :
    resolved (resultOfPreactivationDone w) →
    isSet (initSnapshot w)
    ∧ Rx.emitted (resultOfPreactivationDone w) = [initSnapshot w];
  running_subject_silent :
    Rx.isStopped (resultOfPreactivationDone w) = false →
    Rx.emitted (resultOfPreactivationDone w) = [];
}.

(** No interception is installed and no promise has been settled. *)
Definition idle (w : World) : Prop :=
  router_afterPreactivation (router w) = defaultHook
  ∧ Forall (λ p, p = pending) (promises w).

(** ** Auxiliary notions for the further properties *)

(** The route table a registration contributes. *)
Definition registeredRoutes (r : Registration) : Routes :=
  match r with
  | registerRoot routes _ => routes
  | registerChild routes => routes
  end.

(** Tokens the router module expects from the platform and the core. *)
Definition platformToken (t : Token) : bool :=
  match t with
  | tApplicationRef | tInjector | tCompiler | tPlatformLocation => true
  | _ => false
  end.

Definition provided (t : Token) (ps : list Provider) : bool :=
  bool_decide (providersFor t ps ≠ []).

(** A dependency can be met: it is optional, or comes from the platform, or
    is registered in the list. *)
Definition depSatisfied (ps : list Provider) (d : Dep) : bool :=
  depOptional d || platformToken (depToken d) || provided (depToken d) ps.

Definition recipeSatisfied (ps : list Provider) (r : Recipe) : bool :=
  match r with
  | useFactory _ deps => forallb (depSatisfied ps) deps
  | useExisting t => provided t ps
  | useClass _ | useValue _ => true
  end.

(** The listener's groups in a console: they are opened one at a time and
    closed, the listener's log lines sit inside them, and no call of the
    application or of another subscriber falls inside one.  [inGroup] tells
    whether a group of the listener is open at the start. *)
Fixpoint groupsClosed (inGroup : bool) (c : list (Writer * ConsoleCall)) : bool :=
  match c with
  | [] => negb inGroup
  | (byTracingListener, consoleGroup _) :: c => negb inGroup && groupsClosed true c
  | (byTracingListener, consoleGroupEnd) :: c => inGroup && groupsClosed false c
  | (byTracingListener, _) :: c => inGroup && groupsClosed inGroup c
  | (byApplication, _) :: c => negb inGroup && groupsClosed inGroup c
  end.

(** The report is about the application's first component. *)
Definition isRootReport (ref : ApplicationRef) (c : ComponentRef) : bool :=
  bool_decide (head (components ref) = Some c).

(** The calls one step makes on the Router and on the preloader. *)
Definition stepCalls (opts : ExtraOptions) (e : Step) : list Call :=
  match e with
  | runAppInitializer settlesOk =>
      if strictly_false (initialNavigation opts)
      then [callSetUpLocationChangeListener]
      else [callInitialNavigation]
  | runAppInitializer (settlesFailed _) => []
  | preactivation _ => []
  | bootstrapped ref c =>
      if isRootReport ref c
      then [callSetUpPreloading; callResetRootComponentType (head (componentTypes ref))]
      else []
  end.

Definition isPreactivation (e : Step) : Prop :=
  match e with
  | preactivation _ => True
  | _ => False
  end.

(** The bookkeeping every run keeps, whatever the order of its steps: an
    installed interception resolves a promise that exists; as long as no
    snapshot is captured [initSnapshot] is undefined and every promise is
    pending; once one is captured, exactly one promise is fulfilled, with
    [true], and all the others are pending. *)
Record Tracked (w : World) : Prop := mkTracked {
  hook_promise_exists :
    ∀ k, router_afterPreactivation (router w) = initializerHook k →
         k < length (promises w);
  unset_all_pending :
    truthy (initSnapshot w) = false →
    initSnapshot w = undefined ∧ Forall (λ p, p = pending) (promises w);
  set_one_fulfilled :
    truthy (initSnapshot w) = true →
    ∃ k, promises w !! k = Some (fulfilled (boolean true))
         ∧ ∀ j p, j ≠ k → promises w !! j = Some p → p = pending;
}.

(** ** Instantiation of the registered providers *)

(** What the host supplies: an identity for every class and platform
    service, and the base href when the application provides one. *)
Record Platform : Type := mkPlatform {
  handleOf : Token → nat;
  appBaseHref : option string;
}.

(** What a token resolves to. *)
Inductive Instance : Type :=
  | iObject (h : nat)
  | iNull
  | iText (s : string)
  | iConfiguration (o : ExtraOptions)
  | iRouteTables (tables : list Routes)
  | iRouter (r : Router)
  | iLocationStrategy (s : LocationStrategy)
  | iRootRoute (r : Router)
  | iAppInitializer
  | iBootstrapListener.

(** Modelled from the spec: tokens the container, absent from these
    sources, finds outside the router's own provider list. *)
Definition fromPlatform (pf : Platform) (t : Token) : option Instance :=
  if platformToken t then Some (iObject (handleOf pf t))
  else if decide (t = tAPP_BASE_HREF) then iText <$> appBaseHref pf
  else None.

(** The factories of this module applied to their resolved dependencies,
    in the order of the [deps] arrays.  [getAppInitializer] and
    [getBootstrapListener] return the bound methods of the initializer they
    are given; a guard that throws yields nothing. *)
Definition applyFactory (f : Factory) (args : list Instance) : option Instance :=
  match f, args with
  | fSetupRouter,
    [iObject ref; iObject us; iObject om; iObject loc; iObject inj; iObject ld;
     iObject cmp; iRouteTables config; iConfiguration opts] =>
      Some (iRouter (setupRouter ref us om loc inj ld cmp config (Some opts)))
  | fRootRoute, [iRouter r] => Some (iRootRoute r)
  | fProvideForRootGuard, [a] =>
      match provideForRootGuard (match a with iRouter _ => Some 0 | _ => None end) with
      | Returns g => Some (iText g)
      | Throws _ => None
      end
  | fProvideLocationStrategy, [iObject pl; iText href; iConfiguration opts] =>
      Some (iLocationStrategy (provideLocationStrategy pl href (Some opts)))
  | fGetAppInitializer, [iObject _] => Some iAppInitializer
  | fGetBootstrapListener, [iObject _] => Some iBootstrapListener
  | _, _ => None
  end.

(** Modelled from the spec: the container, absent from these sources,
    making what a recipe describes.  A value is itself, a class gives its
    instance, an alias gives what its target resolves to, and a factory is
    applied to its dependencies, each resolved by token: [ROUTES] to all the
    registered route tables, a token without provider from the platform, a
    SkipSelf dependency outside this list, and a missing optional dependency
    to null.  [fuel] bounds the depth of the dependency chain. *)
Fixpoint instantiateRecipe (fuel : nat) (pf : Platform) (ps : list Provider)
    (r : Recipe) : option Instance :=
  match fuel with
  | 0 => None
  | S fuel =>
      let get (t : Token) : option Instance :=
        if decide (t = tROUTES) then Some (iRouteTables (contributedRoutes ps))
        else match resolveRecipe t ps with
             | Some r' => instantiateRecipe fuel pf ps r'
             | None => fromPlatform pf t
             end in
      match r with
      | useValue (configValue o) => Some (iConfiguration o)
      | useValue (routesValue rs) => Some (iRouteTables [rs])
      | useClass c => Some (iObject (handleOf pf c))
      | useExisting t => get t
      | useFactory f deps =>
          args ← mapM (λ d,
                   match (if depSkipSelf d then fromPlatform pf (depToken d)
                          else get (depToken d)) with
                   | Some i => Some i
                   | None => if depOptional d then Some iNull else None
                   end) deps;
          applyFactory f args
      end
  end.

(** Deep enough for every chain of dependencies of this module. *)
Definition injectorDepth : nat := 4.

(** [injector.get(t)] *)
Definition instantiate (pf : Platform) (ps : list Provider) (t : Token) : option Instance :=
  instantiateRecipe injectorDepth pf ps (useExisting t).

(** All the values registered for a multi-valued token. *)
Definition instantiateAll (pf : Platform) (ps : list Provider) (t : Token)
    : option (list Instance) :=
  mapM (instantiateRecipe injectorDepth pf ps) (resolveMulti t ps).

(** Modelled from the spec: the initializer phase of the host, absent from
    these sources.  It calls every function registered for
    [APP_INITIALIZER]; the router's one runs [appInitializer] with the
    Router and the configuration its injector resolves, once the location
    signal has settled as [p] says. *)
Definition initializerPhase (pf : Platform) (ps : list Provider) (p : Settlement)
    : option (list Returned * World) :=
  hooks ← instantiateAll pf ps tAPP_INITIALIZER;
  match instantiate pf ps tRouter, instantiate pf ps tROUTER_CONFIGURATION with
  | Some (iRouter r), Some (iConfiguration opts) =>
      Some (foldl (λ acc h,
                     match h with
                     | iAppInitializer =>
                         let '(ret, w) := appInitializer p opts acc.2 in
                         (acc.1 ++ [ret], w)
                     | _ => acc
                     end)
                  ([], initialWorld r) hooks)
  | _, _ => None
  end.

(** * Properties *)

(** ** Provider lists *)

Lemma providersFor_app (t : Token) (ps qs : list Provider) :
  providersFor t (ps ++ qs) = providersFor t ps ++ providersFor t qs.
Proof. unfold providersFor. apply filter_app. Qed.

Lemma layerProviders_app (a b : Layer) :
  layerProviders (a ++ b) = layerProviders a ++ layerProviders b.
Proof. unfold layerProviders. apply flat_map_app. Qed.

Lemma layerProviders_cons (r : Registration) (l : Layer) :
  layerProviders (r :: l) = registrationProviders r ++ layerProviders l.
Proof. reflexivity. Qed.

(** Child registrations contribute route tables and nothing else. *)
Lemma providersFor_children (t : Token) (kids : list Routes) :
  t ≠ tROUTES → t ≠ tANALYZE_FOR_ENTRY_COMPONENTS →
  providersFor t (layerProviders (childLayer kids)) = [].
Proof.
  intros H1 H2. unfold childLayer. induction kids as [|k kids IH]; [reflexivity|].
  rewrite fmap_cons, layerProviders_cons, providersFor_app, IH.
  unfold providersFor. cbn.
  repeat case_decide; first [congruence | reflexivity].
Qed.

Lemma providersFor_root_layer (t : Token) (before after : list Routes)
    (routes : Routes) (config : option ExtraOptions) :
  t ≠ tROUTES → t ≠ tANALYZE_FOR_ENTRY_COMPONENTS →
  providersFor t (layerProviders
    (rootLayer before routes config after))
  = providersFor t (providers (forRoot routes config)).
Proof.
  intros H1 H2. unfold rootLayer.
  rewrite layerProviders_app, layerProviders_cons, !providersFor_app.
  rewrite !providersFor_children by assumption.
  cbn [registrationProviders]. by rewrite app_nil_r.
Qed.

Lemma resolveRecipe_later (t : Token) (ps qs : list Provider) :
  providersFor t qs = [] → resolveRecipe t (ps ++ qs) = resolveRecipe t ps.
Proof.
  intros H. unfold resolveRecipe. by rewrite providersFor_app, H, app_nil_r.
Qed.

Lemma providersFor_forRoot_guard (routes : Routes) (config : option ExtraOptions) :
  providersFor tROUTER_FORROOT_GUARD (providers (forRoot routes config))
  = [mkProvider tROUTER_FORROOT_GUARD false
       (useFactory fProvideForRootGuard [mkDep tRouter true true])].
Proof. reflexivity. Qed.

Lemma providersFor_forRoot_router (routes : Routes) (config : option ExtraOptions) :
  ∃ p, providersFor tRouter (providers (forRoot routes config)) = [p].
Proof. eexists. reflexivity. Qed.

Lemma instantiateGuard_children (kids : list Routes) (outer : list (list Provider)) :
  instantiateGuard (layerProviders (registerChild <$> kids) :: outer) = Returns None.
Proof.
  unfold instantiateGuard, resolveRecipe.
  by rewrite providersFor_children.
Qed.

Lemma findRouter_children (kids : list Routes) (outer : list (list Provider)) :
  findRouter (layerProviders (registerChild <$> kids) :: outer) = findRouter outer.
Proof.
  cbn [findRouter]. unfold resolveRecipe.
  by rewrite providersFor_children.
Qed.

Lemma composeUnder_children (lazy_layers : list (list Routes)) (outer : list (list Provider)) :
  composeUnder outer (childLayer <$> lazy_layers) = Returns ().
Proof.
  revert outer. induction lazy_layers as [|kids rest IH]; intros outer; [reflexivity|].
  rewrite fmap_cons. cbn [composeUnder].
  rewrite instantiateGuard_children. apply IH.
Qed.

Lemma instantiateGuard_root (before after : list Routes) (routes : Routes)
    (config : option ExtraOptions) (outer : list (list Provider)) :
  instantiateGuard (layerProviders
    (rootLayer before routes config after)
    :: outer)
  = match provideForRootGuard (findRouter outer) with
    | Returns g => Returns (Some g)
    | Throws m => Throws m
    end.
Proof.
  unfold instantiateGuard, resolveRecipe.
  rewrite providersFor_root_layer by discriminate.
  rewrite providersFor_forRoot_guard. reflexivity.
Qed.

Lemma findRouter_root (before after : list Routes) (routes : Routes)
    (config : option ExtraOptions) (outer : list (list Provider)) :
  findRouter (layerProviders
    (rootLayer before routes config after)
    :: outer) = Some (length outer).
Proof.
  cbn [findRouter]. unfold resolveRecipe.
  rewrite providersFor_root_layer by discriminate.
  destruct (providersFor_forRoot_router routes config) as [p ->]. reflexivity.
Qed.

Lemma composeUnder_second_root (mid : list (list Routes)) (before after : list Routes)
    (routes : Routes) (config : option ExtraOptions) (rest : list Layer)
    (outer : list (list Provider)) (r : RouterRef) :
  findRouter outer = Some r →
  composeUnder outer
    ((childLayer <$> mid) ++
     (rootLayer before routes config after)
     :: rest)
  = Throws "RouterModule.forRoot() called twice. Lazy loaded modules should use RouterModule.forChild() instead.".
Proof.
  revert outer. induction mid as [|kids mid IH]; intros outer Hr.
  - rewrite fmap_nil, app_nil_l. cbn [composeUnder].
    rewrite instantiateGuard_root, Hr. reflexivity.
  - rewrite fmap_cons, <- app_comm_cons. cbn [composeUnder].
    rewrite instantiateGuard_children. apply IH.
    by rewrite findRouter_children.
Qed.

(** C5: the root guard throws its descriptive error for every Router it is
    given and returns the marker 'guarded' when given none; a child
    registration installs neither a guard nor a Router provider; so a
    composition with one root registration in the outermost layer and child
    registrations everywhere else succeeds, whereas a root registration
    below a layer that already provides the Router fails with that error. *)
Theorem root_guard_single_registration :
  (∀ r : RouterRef,
     provideForRootGuard (Some r)
     = Throws "RouterModule.forRoot() called twice. Lazy loaded modules should use RouterModule.forChild() instead.")
  ∧ provideForRootGuard None = Returns "guarded"
  ∧ (∀ routes : Routes,
       resolveRecipe tROUTER_FORROOT_GUARD (providers (forChild routes)) = None
       ∧ resolveRecipe tRouter (providers (forChild routes)) = None)
  ∧ (∀ (routes : Routes) (config : option ExtraOptions) (before after : list Routes)
       (lazy_layers : list (list Routes)),
       compose
         ((rootLayer before routes config after)
          :: (childLayer <$> lazy_layers))
       = Returns ())
  ∧ (∀ (routes routes' : Routes) (config config' : option ExtraOptions)
       (kids before after : list Routes) (mid : list (list Routes)) (rest : list Layer),
       compose
         ((rootLayer [] routes config kids)
          :: (childLayer <$> mid) ++
             (rootLayer before routes' config' after)
             :: rest)
       = Throws "RouterModule.forRoot() called twice. Lazy loaded modules should use RouterModule.forChild() instead.").
Proof.
  split; [reflexivity|]. split; [reflexivity|]. split; [by intros routes|]. split.
  - intros routes config before after lazy_layers.
    unfold compose. cbn [composeUnder].
    rewrite instantiateGuard_root. cbn [findRouter provideForRootGuard].
    apply composeUnder_children.
  - intros routes routes' config config' kids before after mid rest.
    unfold compose. cbn [composeUnder].
    rewrite (instantiateGuard_root [] kids). cbn [findRouter provideForRootGuard].
    apply (composeUnder_second_root _ _ _ _ _ _ _ 0).
    apply (findRouter_root [] kids).
Qed.

(** C6: with [useHash] true the strategy is the hash one, with [useHash]
    false or absent (also when no options record is passed) it is the path
    one; both are seeded with the platform location and the base href given,
    whatever the other options are. *)
Theorem provideLocationStrategy_by_useHash :
  ∀ (platformLocation : PlatformLocation) (baseHref : string)
    (tracing nav : option bool) (handler : option ErrorHandler) (strategy : option Token),
    provideLocationStrategy platformLocation baseHref
      (Some (mkExtraOptions tracing (Some true) nav handler strategy))
    = HashLocationStrategy platformLocation baseHref
    ∧ provideLocationStrategy platformLocation baseHref
        (Some (mkExtraOptions tracing (Some false) nav handler strategy))
      = PathLocationStrategy platformLocation baseHref
    ∧ provideLocationStrategy platformLocation baseHref
        (Some (mkExtraOptions tracing None nav handler strategy))
      = PathLocationStrategy platformLocation baseHref
    ∧ provideLocationStrategy platformLocation baseHref None
      = PathLocationStrategy platformLocation baseHref.
Proof. intros. repeat split. Qed.

(** C7: the [PreloadingStrategy] provider of a root registration aliases the
    configured token when the config record carries one, and [NoPreloading]
    when the record carries none or no record is given.  The alias is fixed
    in the provider list: child registrations and a later override of the
    router configuration leave it as it was. *)
Theorem preloadingStrategy_fixed_by_forRoot :
  ∀ (routes : Routes) (tracing hash nav : option bool) (handler : option ErrorHandler)
    (s : Token) (config : option ExtraOptions) (kids : list Routes) (later : ExtraOptions),
    resolveRecipe tPreloadingStrategy
      (providers (forRoot routes (Some (mkExtraOptions tracing hash nav handler (Some s)))))
    = Some (useExisting s)
    ∧ resolveRecipe tPreloadingStrategy
        (providers (forRoot routes (Some (mkExtraOptions tracing hash nav handler None))))
      = Some (useExisting tNoPreloading)
    ∧ resolveRecipe tPreloadingStrategy (providers (forRoot routes None))
      = Some (useExisting tNoPreloading)
    ∧ length (providersFor tPreloadingStrategy (providers (forRoot routes config))) = 1
    ∧ resolveRecipe tPreloadingStrategy
        (providers (forRoot routes config) ++ layerProviders (childLayer kids) ++
         [mkProvider tROUTER_CONFIGURATION false (useValue (configValue later))])
      = resolveRecipe tPreloadingStrategy (providers (forRoot routes config)).
Proof.
  intros. repeat split.
  apply resolveRecipe_later.
  rewrite providersFor_app, providersFor_children by discriminate.
  reflexivity.
Qed.

(** ** Router factory *)

Lemma contributedRoutes_app (ps qs : list Provider) :
  contributedRoutes (ps ++ qs) = contributedRoutes ps ++ contributedRoutes qs.
Proof.
  unfold contributedRoutes, resolveMulti.
  by rewrite providersFor_app, fmap_app, flat_map_app.
Qed.

Lemma contributedRoutes_children (kids : list Routes) :
  contributedRoutes (layerProviders (childLayer kids)) = kids.
Proof.
  unfold childLayer. induction kids as [|k kids IH]; [reflexivity|].
  rewrite fmap_cons, layerProviders_cons, contributedRoutes_app, IH. reflexivity.
Qed.

Lemma contributedRoutes_rootLayer (before after : list Routes) (routes : Routes)
    (config : option ExtraOptions) :
  contributedRoutes (layerProviders (rootLayer before routes config after))
  = before ++ routes :: after.
Proof.
  unfold rootLayer.
  rewrite layerProviders_app, layerProviders_cons, !contributedRoutes_app.
  rewrite !contributedRoutes_children. reflexivity.
Qed.

Lemma setupRouter_config (ref : ApplicationRefHandle) (us : UrlSerializer)
    (om : RouterOutletMap) (loc : Location) (inj : Injector)
    (ld : NgModuleFactoryLoader) (cmp : Compiler) (config : list Routes)
    (opts : option ExtraOptions) :
  router_config (setupRouter ref us om loc inj ld cmp config opts) = concat config.
Proof.
  unfold setupRouter.
  destruct (errorHandler (orEmpty opts)), (truthy_flag (enableTracing (orEmpty opts)));
    reflexivity.
Qed.

(** C8: [setupRouter] returns one Router whose route table is the
    concatenation of the contributed route tables in registration order (for
    the contributions of a root layer: those registered before the root, the
    root's, those registered after); its error handler is the one in the
    options when there is one, and the Router's default otherwise. *)
Theorem setupRouter_routes_and_errorHandler :
  ∀ (ref : ApplicationRefHandle) (us : UrlSerializer) (om : RouterOutletMap)
    (loc : Location) (inj : Injector) (ld : NgModuleFactoryLoader) (cmp : Compiler)
    (config : list Routes) (opts : option ExtraOptions)
    (before after : list Routes) (routes : Routes) (rootConfig : option ExtraOptions)
    (tracing hash nav : option bool) (strategy : option Token) (h : ErrorHandler),
    router_config (setupRouter ref us om loc inj ld cmp config opts) = concat config
    ∧ router_config (setupRouter ref us om loc inj ld cmp [] opts) = []
    ∧ router_config
        (setupRouter ref us om loc inj ld cmp
           (contributedRoutes (layerProviders (rootLayer before routes rootConfig after)))
           opts)
      = concat before ++ routes ++ concat after
    ∧ router_errorHandler
        (setupRouter ref us om loc inj ld cmp config
           (Some (mkExtraOptions tracing hash nav (Some h) strategy)))
      = h
    ∧ router_errorHandler
        (setupRouter ref us om loc inj ld cmp config
           (Some (mkExtraOptions tracing hash nav None strategy)))
      = defaultErrorHandler
    ∧ router_errorHandler (setupRouter ref us om loc inj ld cmp config None)
      = defaultErrorHandler.
Proof.
  intros. split; [apply setupRouter_config|]. split; [apply setupRouter_config|].
  split.
  { rewrite setupRouter_config, contributedRoutes_rootLayer.
    by rewrite concat_app, concat_cons. }
  unfold setupRouter. cbn.
  repeat split; destruct (truthy_flag tracing); reflexivity.
Qed.

(** C10: without a config argument the root registration lists the baseline
    configuration first and the empty record after it, so the empty record is
    the one in effect; with it the factory subscribes no tracing listener and
    keeps the default error handler, the location strategy is the path one,
    the initializer installs the interception and starts the initial
    navigation, and the preloading strategy is [NoPreloading].  This is also
    what the providers registered by [forRoot] give when they are
    instantiated: the configuration token resolves to the empty record, the
    Router token to the Router made by [setupRouter] from the registered
    route table and that record, the location strategy token to the path
    strategy, the preloading strategy token to the [NoPreloading] instance,
    and the one registered [APP_INITIALIZER] is the router's initializer,
    whose run starts the initial navigation. *)
Theorem forRoot_without_config_defaults :
  ∀ (routes : Routes) (ref : ApplicationRefHandle) (us : UrlSerializer)
    (om : RouterOutletMap) (loc : Location) (inj : Injector)
    (ld : NgModuleFactoryLoader) (cmp : Compiler) (tables : list Routes)
    (platformLocation : PlatformLocation) (baseHref : string) (r : Router)
    (handles : Token → nat),
    let ps := providers (forRoot routes None) in
    let effective := configurationOf ps in
    let pf := mkPlatform handles (Some baseHref) in
    let made :=
      setupRouter (handles tApplicationRef) (handles tDefaultUrlSerializer)
                  (handles tRouterOutletMap) (handles tLocation) (handles tInjector)
                  (handles tSystemJsNgModuleLoader) (handles tCompiler)
                  [routes] (Some emptyOptions) in
    (recipe <$> providersFor tROUTER_CONFIGURATION ps
     = [useValue (configValue tracingOffOptions); useValue (configValue emptyOptions)]
     ∧ effective = Some emptyOptions
     ∧ router_events (setupRouter ref us om loc inj ld cmp tables effective) = []
     ∧ router_errorHandler (setupRouter ref us om loc inj ld cmp tables effective)
       = defaultErrorHandler
     ∧ provideLocationStrategy platformLocation baseHref effective
       = PathLocationStrategy platformLocation baseHref
     ∧ appInitializer settlesOk (orEmpty effective) (initialWorld r)
       = (follows 0,
          mkWorld undefined Rx.fresh (setAfterPreactivation (initializerHook 0) r)
                  [pending] [callInitialNavigation])
     ∧ resolveRecipe tPreloadingStrategy ps = Some (useExisting tNoPreloading))
    ∧ instantiate pf ps tROUTER_CONFIGURATION = Some (iConfiguration emptyOptions)
    ∧ instantiate pf ps tRouter = Some (iRouter made)
    ∧ router_events made = []
    ∧ router_errorHandler made = defaultErrorHandler
    ∧ router_config made = routes
    ∧ instantiate pf ps tLocationStrategy
      = Some (iLocationStrategy (PathLocationStrategy (handles tPlatformLocation) baseHref))
    ∧ instantiate pf ps tPreloadingStrategy = Some (iObject (handles tNoPreloading))
    ∧ instantiateAll pf ps tAPP_INITIALIZER = Some [iAppInitializer]
    ∧ instantiateAll pf ps tAPP_BOOTSTRAP_LISTENER = Some [iBootstrapListener]
    ∧ initializerPhase pf ps settlesOk
      = Some ([follows 0],
              mkWorld undefined Rx.fresh (setAfterPreactivation (initializerHook 0) made)
                      [pending] [callInitialNavigation]).
Proof.
  intros. split; [by repeat split|].
  repeat split. cbn. apply app_nil_r.
Qed.

(** ** The tracing listener *)

Lemma consoleBy_app (who : Writer) (a b : list (Writer * ConsoleCall)) :
  consoleBy who (a ++ b) = consoleBy who a ++ consoleBy who b.
Proof. unfold consoleBy. by rewrite filter_app, fmap_app. Qed.

Lemma consoleBy_written (who who' : Writer) (out : list ConsoleCall) :
  consoleBy who (written who' out) = if decide (who' = who) then out else [].
Proof.
  unfold consoleBy, written. induction out as [|c out IH]; [by case_decide|].
  rewrite fmap_cons, filter_cons. cbn [fst].
  destruct (decide (who' = who)); [rewrite fmap_cons; cbn; by rewrite IH|exact IH].
Qed.

Lemma written_app (who : Writer) (a b : list ConsoleCall) :
  written who (a ++ b) = written who a ++ written who b.
Proof. unfold written. apply fmap_app. Qed.

Lemma snd_written (who : Writer) (out : list ConsoleCall) :
  snd <$> written who out = out.
Proof.
  unfold written. rewrite <- list_fmap_compose.
  induction out as [|c out IH]; [done|]. cbn. by rewrite IH.
Qed.

Section TracingPassive.
Context {W : Type}.
Variable handler : nat → Event → W → W * list ConsoleCall.
Variable engine : W → option (Action * W).

(** What the application's subscribers do and write depends on the
    application state alone. *)
Lemma notify_others (e : Event) (observers : list Subscriber) (x1 x2 : @Observation W) :
  Forall isOther observers →
  app x1 = app x2 → deliveries x1 = deliveries x2 →
  let y1 := foldl (notify handler e) x1 observers in
  let y2 := foldl (notify handler e) x2 observers in
  app y1 = app y2 ∧ deliveries y1 = deliveries y2
  ∧ emissions y1 = emissions x1 ∧ emissions y2 = emissions x2
  ∧ ∃ out, console y1 = console x1 ++ written byApplication out
           ∧ console y2 = console x2 ++ written byApplication out.
Proof.
  intros Hobs. revert x1 x2.
  induction Hobs as [|s observers Hs _ IH]; intros x1 x2 Ha Hd.
  - cbn. repeat split; try done. exists []. by rewrite !app_nil_r.
  - destruct s as [|id]; [done|]. cbn [foldl notify]. cbn zeta.
    rewrite Ha. destruct (handler id e (app x2)) as [w out0].
    destruct (IH (mkObservation w (console x1 ++ written byApplication out0)
                    (deliveries x1 ++ [(id, e)]) (emissions x1))
                 (mkObservation w (console x2 ++ written byApplication out0)
                    (deliveries x2 ++ [(id, e)]) (emissions x2)))
      as (Ha' & Hd' & He1 & He2 & out & Hc1 & Hc2); [done|cbn; by rewrite Hd|].
    split; [exact Ha'|]. split; [exact Hd'|].
    split; [exact He1|]. split; [exact He2|].
    exists (out0 ++ out). cbn in Hc1, Hc2.
    by rewrite Hc1, Hc2, written_app, !app_assoc.
Qed.

Lemma drive_passive (fuel : nat) (r1 r2 : Router) (x1 x2 : @Observation W) :
  passiveOver (r1, x1) (r2, x2) →
  passiveOver (drive handler engine fuel r1 x1) (drive handler engine fuel r2 x2).
Proof.
  revert r1 r2 x1 x2. induction fuel as [|fuel IH]; intros r1 r2 x1 x2 H; [done|].
  destruct H as (Ha & He & Hd & Hr & Hobs & Hca & Hc2 & Hc1).
  cbn [fst snd] in Ha, He, Hd, Hr, Hobs, Hca, Hc2, Hc1.
  cbn [drive]. rewrite Ha.
  destruct (engine (app x2)) as [[[e|id|out] w]|];
    [| | |unfold passiveOver; cbn [fst snd]; by repeat split].
  - apply IH.
    assert (router_events r1 = tracingSubscriber :: router_events r2) as -> by by subst r1.
    unfold emit. cbn [foldl notify].
    destruct (notify_others e (router_events r2)
                (tracingCallback e
                   (mkObservation (app (setApp w x1)) (console (setApp w x1))
                      (deliveries (setApp w x1)) (emissions (setApp w x1) ++ [e])))
                (mkObservation (app (setApp w x2)) (console (setApp w x2))
                   (deliveries (setApp w x2)) (emissions (setApp w x2) ++ [e]))
                Hobs)
      as (Ha' & Hd' & He1 & He2 & out & Hc1' & Hc2'); [done..|].
    unfold passiveOver. cbn [fst snd].
    split; [exact Ha'|]. split; [rewrite He1, He2; cbn; by rewrite He|].
    split; [exact Hd'|]. split; [exact Hr|]. split; [exact Hobs|].
    rewrite Hc1', Hc2', He1. cbn [tracingCallback setApp console emissions].
    rewrite !consoleBy_app, !consoleBy_written, fmap_app, snd_written. cbn [decide].
    split; [|split].
    + rewrite Hca. destruct (decide (byTracingListener = byApplication)); [done|].
      destruct (decide (byApplication = byApplication)); [|done].
      by rewrite app_nil_r.
    + rewrite Hc2. by destruct (decide (byApplication = byTracingListener)).
    + rewrite Hc1, flat_map_app. cbn [flat_map].
      destruct (decide (byTracingListener = byTracingListener)); [|done].
      destruct (decide (byApplication = byTracingListener)); [done|].
      by rewrite !app_nil_r.
  - apply IH. unfold passiveOver. cbn [fst snd setApp app emissions deliveries console].
    split; [done|]. split; [done|]. split; [done|].
    split; [subst r1; reflexivity|].
    split; [|done].
    cbn. apply Forall_app. split; [done|]. by constructor.
  - apply IH. unfold passiveOver.
    cbn [fst snd setApp writeOut app emissions deliveries console].
    split; [done|]. split; [done|]. split; [done|]. split; [done|]. split; [done|].
    rewrite !consoleBy_app, !consoleBy_written, fmap_app, snd_written.
    destruct (decide (byApplication = byApplication)); [|done].
    destruct (decide (byApplication = byTracingListener)); [done|].
    rewrite !app_nil_r. by rewrite Hca.
Qed.

(** C9: started from the same application state and driven by the same
    engine and the same subscribers, which may themselves write to the
    console, the Router made with tracing and the Router made without it
    (the option false or absent) go through the same application states,
    emit the same events and deliver them to the same subscribers in the
    same order, and the application and its subscribers make the same
    console calls in the same order; the Routers differ only by the tracing
    observer.  Without tracing the console holds nothing else.  With it the
    listener adds, for each emitted event in emission order, exactly one
    group: the label made of Router Event and the event's class name, the
    event's text, the event itself, and the end of the group. *)
Theorem tracing_subscription_is_passive :
  ∀ (ref : ApplicationRefHandle) (us : UrlSerializer) (om : RouterOutletMap)
    (loc : Location) (inj : Injector) (ld : NgModuleFactoryLoader) (cmp : Compiler)
    (config : list Routes) (hash nav : option bool) (h : option ErrorHandler)
    (strategy : option Token) (fuel : nat) (w : W),
    let traced :=
      drive handler engine fuel
        (setupRouter ref us om loc inj ld cmp config
           (Some (mkExtraOptions (Some true) hash nav h strategy)))
        (start w) in
    passiveOver traced
      (drive handler engine fuel
         (setupRouter ref us om loc inj ld cmp config
            (Some (mkExtraOptions (Some false) hash nav h strategy)))
         (start w))
    ∧ passiveOver traced
        (drive handler engine fuel
           (setupRouter ref us om loc inj ld cmp config
              (Some (mkExtraOptions None hash nav h strategy)))
           (start w)).
Proof.
  intros. subst traced.
  split; apply drive_passive; unfold setupRouter; cbn; destruct h; by repeat split.
Qed.

End TracingPassive.

(** ** The startup protocol *)

Lemma run_cons (opts : ExtraOptions) (e : Step) (es : list Step) (w : World) :
  run opts (e :: es) w = run opts es (step opts w e).
Proof. reflexivity. Qed.

(** Once a snapshot is captured the interception hands its argument back
    and leaves everything as it is. *)
Lemma interception_later (k : nat) (s : value) (w : World) :
  isSet (initSnapshot w) → interception k s w = (ofValue s, w).
Proof. unfold isSet, interception. by intros ->. Qed.

Lemma interception_first (k : nat) (s : value) (w : World) :
  truthy (initSnapshot w) = false →
  interception k s w
  = (resultSubject,
     mkWorld s (resultOfPreactivationDone w) (router w)
             (settle k (boolean true) (promises w)) (calls w)).
Proof. unfold interception. by intros ->. Qed.

Lemma step_keeps_snapshot (opts : ExtraOptions) (w : World) (e : Step) :
  isSet (initSnapshot w) → initSnapshot (step opts w e) = initSnapshot w.
Proof.
  intros Hset. destruct e as [p|s|ref c]; cbn.
  - destruct p; [|done]. cbn. unfold appInitializerBody.
    by destruct (strictly_false (initialNavigation opts)).
  - unfold afterPreactivation.
    destruct (router_afterPreactivation (router w)); [done|].
    by rewrite interception_later.
  - unfold bootstrapListener. by case_decide.
Qed.

Lemma run_keeps_snapshot (opts : ExtraOptions) (es : list Step) (w : World) :
  isSet (initSnapshot w) → initSnapshot (run opts es w) = initSnapshot w.
Proof.
  revert w. induction es as [|e es IH]; intros w Hset; [done|].
  rewrite run_cons, IH.
  - by apply step_keeps_snapshot.
  - unfold isSet. by rewrite step_keeps_snapshot.
Qed.

Lemma step_keeps_interception (opts : ExtraOptions) (w : World) (e : Step) :
  strictly_false (initialNavigation opts) = false →
  intercepting w → intercepting (step opts w e).
Proof.
  intros Hnav [k Hk]. destruct e as [p|s|ref c]; cbn.
  - destruct p; [|by exists k]. cbn. unfold appInitializerBody. rewrite Hnav.
    by eexists.
  - unfold afterPreactivation. rewrite Hk.
    destruct (interception k (snapshot s) w) as [o w'] eqn:E. cbn.
    unfold interception in E.
    destruct (negb (truthy (initSnapshot w))); inversion E; subst; by exists k.
  - unfold bootstrapListener. case_decide; by exists k.
Qed.

Lemma run_keeps_interception (opts : ExtraOptions) (es : list Step) (w : World) :
  strictly_false (initialNavigation opts) = false →
  intercepting w → intercepting (run opts es w).
Proof.
  intros Hnav. revert w. induction es as [|e es IH]; intros w Hw; [done|].
  rewrite run_cons. by apply IH, step_keeps_interception.
Qed.

(** Attaching views changes neither the captured snapshot, nor the promises,
    nor the interception. *)
Lemma bootstrapped_only (opts : ExtraOptions) (es : list Step) (w : World) :
  Forall isBootstrapped es →
  initSnapshot (run opts es w) = initSnapshot w
  ∧ promises (run opts es w) = promises w
  ∧ router_afterPreactivation (router (run opts es w)) = router_afterPreactivation (router w).
Proof.
  intros Hes. revert w. induction Hes as [|e es He _ IH]; intros w; [done|].
  rewrite run_cons. destruct (IH (step opts w e)) as (-> & -> & ->).
  destruct e as [| |ref c]; [done..|]. cbn. unfold bootstrapListener.
  by case_decide.
Qed.

(** C1: once [appInitializer] has installed the interception, its first
    invocation (whatever views were attached before) returns the held
    subject, stores its snapshot in [initSnapshot] and fulfils the promise
    the initializer returned, which was pending until then.  Every later
    invocation, after any further steps of the run, returns [of (s)] for its
    own snapshot and leaves the whole state, [initSnapshot] and the subject
    included, as it was; [initSnapshot] is the first snapshot for ever. *)
Theorem interception_captures_first_snapshot_only :
  ∀ (opts : ExtraOptions) (r : Router) (es1 es2 : list Step) (s1 : RouterStateSnapshot),
    strictly_false (initialNavigation opts) = false →
    Forall isBootstrapped es1 →
    let installed := appInitializer settlesOk opts (initialWorld r) in
    let before := run opts es1 installed.2 in
    let first := afterPreactivation (snapshot s1) before in
    installed.1 = follows 0
    ∧ router_afterPreactivation (router installed.2) = initializerHook 0
    ∧ returnedSettled installed.1 before = false
    ∧ first.1 = Some resultSubject
    ∧ initSnapshot first.2 = snapshot s1
    ∧ promises first.2 = [fulfilled (boolean true)]
    ∧ returnedSettled installed.1 first.2 = true
    ∧ resultOfPreactivationDone first.2 = resultOfPreactivationDone before
    ∧ initSnapshot (run opts es2 first.2) = snapshot s1
    ∧ (∀ (pre post : list Step) (s : RouterStateSnapshot),
         es2 = pre ++ preactivation s :: post →
         let w := run opts pre first.2 in
         afterPreactivation (snapshot s) w = (Some (ofValue (snapshot s)), w)
         ∧ initSnapshot w = snapshot s1).
Proof.
  intros opts r es1 es2 s1 Hnav Hes1 installed before first.
  assert (installed = (follows 0,
            mkWorld undefined Rx.fresh (setAfterPreactivation (initializerHook 0) r)
                    [pending] [callInitialNavigation])) as Hinst.
  { subst installed. cbn. unfold appInitializerBody. by rewrite Hnav. }
  destruct (bootstrapped_only opts es1 installed.2 Hes1) as (Hsnap & Hprom & Hhook).
  fold before in Hsnap, Hprom, Hhook. rewrite Hinst in Hsnap, Hprom, Hhook.
  cbn in Hsnap, Hprom, Hhook.
  assert (first = (Some resultSubject,
            mkWorld (snapshot s1) (resultOfPreactivationDone before) (router before)
                    [fulfilled (boolean true)] (calls before))) as Hfirst.
  { subst first. unfold afterPreactivation. rewrite Hhook, interception_first.
    - by rewrite Hprom.
    - by rewrite Hsnap. }
  assert (isSet (initSnapshot first.2)) as Hset by by rewrite Hfirst.
  rewrite Hinst, Hfirst. cbn [fst snd].
  split; [done|]. split; [done|].
  split; [unfold returnedSettled; by rewrite Hprom|].
  split; [done|]. split; [done|]. split; [done|]. split; [done|]. split; [done|].
  rewrite Hfirst in Hset.
  split; [by rewrite run_keeps_snapshot|].
  intros pre post s _.
  set (w := run opts pre _).
  assert (initSnapshot w = snapshot s1) as Hw by (subst w; by rewrite run_keeps_snapshot).
  split; [|done].
  destruct (run_keeps_interception opts pre
              (mkWorld (snapshot s1) (resultOfPreactivationDone before) (router before)
                       [fulfilled (boolean true)] (calls before)) Hnav) as [k Hk].
  { exists 0. cbn. exact Hhook. }
  fold w in Hk. unfold afterPreactivation. rewrite Hk, interception_later; [done|].
  unfold isSet. by rewrite Hw.
Qed.

(** A run of C1: a view attached early, then three navigations. *)
Lemma interception_captures_first_snapshot_only_witness :
  let opts := emptyOptions in
  let r := newRouter None 0 0 0 0 0 0 [] in
  let es1 := [bootstrapped (mkApplicationRef [7] [3]) 7] in
  let es2 := [preactivation 12; bootstrapped (mkApplicationRef [7] [3]) 7; preactivation 13] in
  let installed := snd (appInitializer settlesOk opts (initialWorld r)) in
  let first := snd (afterPreactivation (snapshot 11) (run opts es1 installed)) in
  strictly_false (initialNavigation opts) = false
  ∧ Forall isBootstrapped es1
  ∧ initSnapshot (run opts es2 first) = snapshot 11
  ∧ afterPreactivation (snapshot 12) first = (Some (ofValue (snapshot 12)), first).
Proof.
  intros opts r es1 es2 installed first.
  assert (strictly_false (initialNavigation opts) = false) as Hnav by reflexivity.
  assert (Forall isBootstrapped es1) as Hes1 by (repeat constructor).
  destruct (interception_captures_first_snapshot_only opts r es1 es2 11 Hnav Hes1)
    as (_ & _ & _ & _ & _ & _ & _ & _ & Hlast & Hlater).
  split; [exact Hnav|]. split; [exact Hes1|]. split; [exact Hlast|].
  exact (proj1 (Hlater []
                  [bootstrapped (mkApplicationRef [7] [3]) 7; preactivation 13] 12
                  eq_refl)).
Defined.

(** *** Resolution of the held subject *)

Lemma stopped_subject_is_final (s : Rx.Subject) (v : value) :
  Rx.isStopped s = true → Rx.complete (Rx.next v s) = s.
Proof. destruct s as [stopped vs]. cbn. by intros ->. Qed.

Lemma step_keeps_stopped_subject (opts : ExtraOptions) (w : World) (e : Step) :
  Rx.isStopped (resultOfPreactivationDone w) = true →
  resultOfPreactivationDone (step opts w e) = resultOfPreactivationDone w.
Proof.
  intros Hstop. destruct e as [p|s|ref c]; cbn.
  - destruct p; [|done]. cbn. unfold appInitializerBody.
    by destruct (strictly_false (initialNavigation opts)).
  - unfold afterPreactivation.
    destruct (router_afterPreactivation (router w)); [done|].
    unfold interception. by destruct (negb (truthy (initSnapshot w))).
  - unfold bootstrapListener. case_decide; [done|]. cbn.
    by apply stopped_subject_is_final.
Qed.

Lemma run_keeps_stopped_subject (opts : ExtraOptions) (es : list Step) (w : World) :
  Rx.isStopped (resultOfPreactivationDone w) = true →
  resultOfPreactivationDone (run opts es w) = resultOfPreactivationDone w.
Proof.
  revert w. induction es as [|e es IH]; intros w Hstop; [done|].
  rewrite run_cons, IH; rewrite step_keeps_stopped_subject; done.
Qed.

(** C4: for a component that is not the first of the application the
    listener changes nothing.  For the first one it calls [setUpPreloading],
    then [resetRootComponentType] with the first component type, and leaves
    the subject stopped; if the subject was not stopped yet, the captured
    [initSnapshot] is the one value it emits at that moment.  From then on
    no step of any run changes the subject. *)
Theorem bootstrapListener_resolves_for_root_only :
  ∀ (ref : ApplicationRef) (c : ComponentRef) (w : World),
    (Some c ≠ head (components ref) → bootstrapListener ref c w = w)
    ∧ (head (components ref) = Some c →
       let w' := bootstrapListener ref c w in
       calls w' = calls w ++ [callSetUpPreloading;
                              callResetRootComponentType (head (componentTypes ref))]
       ∧ router w' = setRootComponentType (head (componentTypes ref)) (router w)
       ∧ initSnapshot w' = initSnapshot w
       ∧ promises w' = promises w
       ∧ Rx.isStopped (resultOfPreactivationDone w') = true
       ∧ (Rx.isStopped (resultOfPreactivationDone w) = false →
          Rx.emitted (resultOfPreactivationDone w')
          = Rx.emitted (resultOfPreactivationDone w) ++ [initSnapshot w])
       ∧ (Rx.isStopped (resultOfPreactivationDone w) = true →
          resultOfPreactivationDone w' = resultOfPreactivationDone w)
       ∧ (∀ (opts : ExtraOptions) (es : list Step),
            resultOfPreactivationDone (run opts es w') = resultOfPreactivationDone w')).
Proof.
  intros ref c w. split.
  - intros Hne. unfold bootstrapListener. by case_decide.
  - intros Hroot w'.
    assert (w' = mkWorld (initSnapshot w)
              (Rx.complete (Rx.next (initSnapshot w) (resultOfPreactivationDone w)))
              (setRootComponentType (head (componentTypes ref)) (router w))
              (promises w)
              (calls w ++ [callSetUpPreloading;
                           callResetRootComponentType (head (componentTypes ref))])) as Hw'.
    { subst w'. unfold bootstrapListener. case_decide; [congruence|done]. }
    rewrite Hw'. cbn.
    split; [done|]. split; [done|]. split; [done|]. split; [done|]. split; [done|].
    split; [|split].
    + unfold Rx.next. by intros ->.
    + apply stopped_subject_is_final.
    + intros opts es. by rewrite run_keeps_stopped_subject.
Qed.

(** The root view attached twice after a capture: the second call emits
    nothing more. *)
Lemma bootstrapListener_resolves_for_root_only_witness :
  let ref := mkApplicationRef [7; 8] [3; 4] in
  let w := mkWorld (snapshot 11) Rx.fresh (newRouter None 0 0 0 0 0 0 [])
                   [fulfilled (boolean true)] [callInitialNavigation] in
  (Some 8 ≠ head (components ref) ∧ bootstrapListener ref 8 w = w)
  ∧ (head (components ref) = Some 7
     ∧ Rx.emitted (resultOfPreactivationDone (bootstrapListener ref 7 w)) = [snapshot 11]
     ∧ resultOfPreactivationDone
         (run emptyOptions [bootstrapped ref 7; preactivation 12] (bootstrapListener ref 7 w))
       = Rx.mkSubject true [snapshot 11]).
Proof.
  intros ref w.
  destruct (bootstrapListener_resolves_for_root_only ref 8 w) as [Hother _].
  destruct (bootstrapListener_resolves_for_root_only ref 7 w) as [_ Hroot].
  split.
  - split; [discriminate|]. apply Hother. discriminate.
  - split; [reflexivity|].
    destruct (Hroot eq_refl) as (_ & _ & _ & _ & _ & Hemit & _ & Hfinal).
    split.
    + apply (Hemit eq_refl).
    + rewrite (Hfinal emptyOptions). reflexivity.
Defined.

(** *** Capture before release *)

Lemma Ordered_initial (r : Router) : Ordered (initialWorld r).
Proof.
  split; cbn; [done| |done].
  intros [?|?]; done.
Qed.

Lemma Ordered_step (opts : ExtraOptions) (w : World) (e : Step) :
  Ordered w → permitted w e = true → Ordered (step opts w e).
Proof.
  intros [Hful Hres Hrun] Hperm. destruct e as [p|s|ref c]; cbn.
  - destruct p; [|by split]. cbn. unfold appInitializerBody.
    destruct (strictly_false (initialNavigation opts)); split; cbn; try done.
    all: unfold earlyPhaseFulfilled; cbn [promises]; rewrite existsb_app; cbn;
      rewrite orb_false_r; exact Hful.
  - unfold afterPreactivation.
    destruct (router_afterPreactivation (router w)) as [|k]; [by split|].
    unfold interception. destruct (truthy (initSnapshot w)) eqn:Hset; cbn; [by split|].
    split; cbn; [done| |done].
    intros Hr. destruct (Hres Hr) as [Hs _]. unfold isSet in Hs. congruence.
  - cbn in Hperm. specialize (Hful Hperm).
    unfold bootstrapListener. case_decide; [by split|].
    split; cbn; [done| |done].
    intros _. split; [done|].
    unfold Rx.next. destruct (Rx.isStopped (resultOfPreactivationDone w)) eqn:Hstop.
    + apply Hres. by left.
    + cbn. by rewrite Hrun.
Qed.

Lemma hostRun_snoc (opts : ExtraOptions) (es : list Step) (e : Step) (w w' : World) :
  hostRun opts (es ++ [e]) w = Some w' →
  ∃ w0, hostRun opts es w = Some w0 ∧ permitted w0 e = true ∧ w' = step opts w0 e.
Proof.
  revert w. induction es as [|e0 es IH]; intros w; cbn.
  - destruct (permitted w e) eqn:Hp; [|done]. intros [= <-]. by exists w.
  - destruct (permitted w e0); [|done]. apply IH.
Qed.

Lemma hostRun_Ordered (opts : ExtraOptions) (es : list Step) (w w' : World) :
  Ordered w → hostRun opts es w = Some w' → Ordered w'.
Proof.
  revert w. induction es as [|e es IH]; intros w Hw; cbn.
  - by intros [= <-].
  - destruct (permitted w e) eqn:Hp; [|done]. apply IH. by apply Ordered_step.
Qed.

Lemma step_resolves_only_by_bootstrap (opts : ExtraOptions) (w : World) (e : Step) :
  ¬ isBootstrapped e →
  resultOfPreactivationDone (step opts w e) = resultOfPreactivationDone w.
Proof.
  destruct e as [p|s|ref c]; cbn; intros He; [| |done].
  - destruct p; [|done]. cbn. unfold appInitializerBody.
    by destruct (strictly_false (initialNavigation opts)).
  - unfold afterPreactivation.
    destruct (router_afterPreactivation (router w)); [done|].
    unfold interception. by destruct (negb (truthy (initSnapshot w))).
Qed.

(** C2: in every run in which the host attaches views only after an
    initializer promise has been fulfilled, the held subject emits at most
    one value; whenever it is resolved, [initSnapshot] is set and is the
    value emitted; and [initSnapshot] was already set in the state before
    the step after which the subject is found resolved. *)
Theorem resolved_once_and_only_after_capture :
  ∀ (opts : ExtraOptions) (r : Router) (es : list Step) (w : World),
    hostRun opts es (initialWorld r) = Some w →
    length (Rx.emitted (resultOfPreactivationDone w)) ≤ 1
    ∧ (resolved (resultOfPreactivationDone w) →
       isSet (initSnapshot w)
       ∧ Rx.emitted (resultOfPreactivationDone w) = [initSnapshot w])
    ∧ (∀ (pre : list Step) (e : Step),
         es = pre ++ [e] →
         resolved (resultOfPreactivationDone w) →
         ∃ w0, hostRun opts pre (initialWorld r) = Some w0 ∧ isSet (initSnapshot w0)).
Proof.
  intros opts r es w Hrun.
  pose proof (hostRun_Ordered opts es _ _ (Ordered_initial r) Hrun) as [Hful Hres Hsilent].
  split; [|split].
  - destruct (Rx.isStopped (resultOfPreactivationDone w)) eqn:Hstop.
    + destruct (Hres (or_introl Hstop)) as [_ Hem]. rewrite Hem. cbn. lia.
    + rewrite Hsilent by done. cbn. lia.
  - exact Hres.
  - intros pre e -> Hr.
    destruct (hostRun_snoc _ _ _ _ _ Hrun) as (w0 & Hpre & Hperm & ->).
    exists w0. split; [done|].
    pose proof (hostRun_Ordered opts pre _ _ (Ordered_initial r) Hpre) as [Hful0 Hres0 _].
    destruct e as [p|s|ref c].
    + rewrite step_resolves_only_by_bootstrap in Hr by (by intros []). by apply Hres0.
    + rewrite step_resolves_only_by_bootstrap in Hr by (by intros []). by apply Hres0.
    + by apply Hful0.
Qed.

(** A run allowed by the host: initializer, first navigation, root view,
    second navigation, root view once more. *)
Lemma resolved_once_and_only_after_capture_witness :
  let r := newRouter None 0 0 0 0 0 0 [] in
  let ref := mkApplicationRef [7] [3] in
  let es := [runAppInitializer settlesOk; preactivation 11; bootstrapped ref 7;
             preactivation 12; bootstrapped ref 7] in
  ∃ w, hostRun emptyOptions es (initialWorld r) = Some w
       ∧ Rx.emitted (resultOfPreactivationDone w) = [snapshot 11]
       ∧ length (Rx.emitted (resultOfPreactivationDone w)) ≤ 1.
Proof.
  intros r ref es.
  eexists. split; [reflexivity|]. split; [reflexivity|].
  eapply (resolved_once_and_only_after_capture emptyOptions r es). reflexivity.
Defined.

(** *** Initial navigation switched off *)

Lemma setupRouter_default_hook (ref : ApplicationRefHandle) (us : UrlSerializer)
    (om : RouterOutletMap) (loc : Location) (inj : Injector)
    (ld : NgModuleFactoryLoader) (cmp : Compiler) (config : list Routes)
    (opts : option ExtraOptions) :
  router_afterPreactivation (setupRouter ref us om loc inj ld cmp config opts) = defaultHook.
Proof.
  unfold setupRouter.
  destruct (errorHandler (orEmpty opts)), (truthy_flag (enableTracing (orEmpty opts)));
    reflexivity.
Qed.

Lemma idle_step (opts : ExtraOptions) (w : World) (e : Step) :
  initialNavigation opts = Some false → idle w → idle (step opts w e).
Proof.
  intros Hnav [Hhook Hpend]. destruct e as [p|s|ref c]; cbn.
  - destruct p; [|done]. cbn. unfold appInitializerBody. rewrite Hnav. cbn.
    split; [done|]. cbn. apply Forall_app. split; [done|]. by constructor.
  - unfold afterPreactivation. by rewrite Hhook.
  - unfold bootstrapListener. by case_decide.
Qed.

Lemma idle_run (opts : ExtraOptions) (es : list Step) (w : World) :
  initialNavigation opts = Some false → idle w → idle (run opts es w).
Proof.
  intros Hnav. revert w. induction es as [|e es IH]; intros w Hw; [done|].
  rewrite run_cons. by apply IH, idle_step.
Qed.

Lemma idle_unsettled (w : World) (k : nat) :
  idle w → returnedSettled (follows k) w = false.
Proof.
  intros [_ Hpend]. cbn. destruct (promises w !! k) as [p|] eqn:Hk; [|done].
  cbn. by rewrite (proj1 (Forall_lookup _ _) Hpend k p Hk).
Qed.

(** C3, as the code behaves: with [initialNavigation: false] the initializer
    calls [setUpLocationChangeListener] and nothing else on the Router, which
    keeps its own after-preactivation hook and is not asked to navigate; the
    promise the initializer returns is left pending, and stays pending
    whatever happens afterwards, because nothing ever calls its [resolve]. *)
Theorem appInitializer_without_navigation_never_settles :
  ∀ (ref : ApplicationRefHandle) (us : UrlSerializer) (om : RouterOutletMap)
    (loc : Location) (inj : Injector) (ld : NgModuleFactoryLoader) (cmp : Compiler)
    (config : list Routes) (tracing hash : option bool) (handler : option ErrorHandler)
    (strategy : option Token) (es : list Step),
    let opts := mkExtraOptions tracing hash (Some false) handler strategy in
    let r := setupRouter ref us om loc inj ld cmp config (Some opts) in
    let outcome := appInitializer settlesOk opts (initialWorld r) in
    outcome.1 = follows 0
    ∧ calls outcome.2 = [callSetUpLocationChangeListener]
    ∧ router outcome.2 = r
    ∧ router_afterPreactivation (router outcome.2) = defaultHook
    ∧ promises outcome.2 = [pending]
    ∧ returnedSettled outcome.1 outcome.2 = false
    ∧ returnedSettled outcome.1 (run opts es outcome.2) = false.
Proof.
  intros. subst outcome. cbn [appInitializer appInitializerBody initialNavigation opts
    strictly_false initialWorld promises fst snd length router calls app].
  split; [done|]. split; [done|]. split; [done|].
  split; [apply setupRouter_default_hook|]. split; [done|]. split; [done|].
  apply idle_unsettled, idle_run; [done|].
  split; cbn; [apply setupRouter_default_hook|]. by repeat constructor.
Qed.

(** The interception tests [initSnapshot] for truthiness: were it ever
    called with a null argument, the next call would capture again.  The
    engine only ever passes snapshot objects, as [preactivation] does. *)
Remark interception_null_argument_recaptures :
  let w0 := mkWorld undefined Rx.fresh
              (setAfterPreactivation (initializerHook 0) (newRouter None 0 0 0 0 0 0 []))
              [pending] [] in
  let w1 := (afterPreactivation null w0).2 in
  initSnapshot w1 = null
  ∧ afterPreactivation (snapshot 5) w1
    = (Some resultSubject,
       mkWorld (snapshot 5) Rx.fresh (router w0) [fulfilled (boolean true)] []).
Proof. split; reflexivity. Qed.

(** * Further properties *)

(** ** Registrations and their providers *)

Lemma resolveRecipe_last_root (t : Token) (l : Layer) (routes : Routes)
    (config : option ExtraOptions) (after : list Routes) :
  t ≠ tROUTES → t ≠ tANALYZE_FOR_ENTRY_COMPONENTS →
  providersFor t (providers (forRoot routes config)) ≠ [] →
  resolveRecipe t (layerProviders (l ++ registerRoot routes config :: childLayer after))
  = resolveRecipe t (providers (forRoot routes config)).
Proof.
  intros H1 H2 Hne. unfold resolveRecipe.
  rewrite layerProviders_app, layerProviders_cons, !providersFor_app.
  rewrite providersFor_children, app_nil_r by assumption.
  cbn [registrationProviders].
  destruct (providersFor t (providers (forRoot routes config))) as [|p ps] eqn:E; [done|].
  by rewrite last_app_cons.
Qed.

(** The configuration in effect for a root registration is the record given
    to [forRoot] as it is, or the empty record when none is given: the
    baseline of [ROUTER_PROVIDERS] is never merged into it, and earlier
    registrations of the same layer, root ones included, do not count.  The
    location strategy and the Router built from it follow that record
    alone. *)
Theorem forRoot_configuration_in_effect :
  ∀ (l : Layer) (routes : Routes) (config : option ExtraOptions) (after : list Routes)
    (ref : ApplicationRefHandle) (us : UrlSerializer) (om : RouterOutletMap)
    (loc : Location) (inj : Injector) (ld : NgModuleFactoryLoader) (cmp : Compiler)
    (tables : list Routes) (platformLocation : PlatformLocation) (baseHref : string),
    let ps := layerProviders (l ++ registerRoot routes config :: childLayer after) in
    let c := match config with Some c => c | None => emptyOptions end in
    configurationOf ps = Some c
    ∧ provideLocationStrategy platformLocation baseHref (configurationOf ps)
      = (if truthy_flag (useHash c)
         then HashLocationStrategy platformLocation baseHref
         else PathLocationStrategy platformLocation baseHref)
    ∧ router_events (setupRouter ref us om loc inj ld cmp tables (configurationOf ps))
      = (if truthy_flag (enableTracing c) then [tracingSubscriber] else [])
    ∧ router_errorHandler (setupRouter ref us om loc inj ld cmp tables (configurationOf ps))
      = default defaultErrorHandler (errorHandler c)
    ∧ resolveRecipe tPreloadingStrategy ps
      = Some (useExisting (default tNoPreloading (preloadingStrategy c))).
Proof.
  intros. subst ps.
  assert (configurationOf
            (layerProviders (l ++ registerRoot routes config :: childLayer after))
          = Some c) as Hc.
  { unfold configurationOf. rewrite resolveRecipe_last_root by done.
    subst c. by destruct config. }
  rewrite Hc. split; [done|]. split; [done|].
  split; [|split].
  - unfold setupRouter. cbn.
    by destruct (errorHandler c), (truthy_flag (enableTracing c)).
  - unfold setupRouter. cbn.
    by destruct (errorHandler c), (truthy_flag (enableTracing c)).
  - rewrite resolveRecipe_last_root by done.
    subst c. destruct config as [c|]; [|done]. by destruct c as [? ? ? ? [?|]].
Qed.

Lemma providersFor_registration_routes (r : Registration) :
  providersFor tROUTES (registrationProviders r)
  = [mkProvider tROUTES true (useValue (routesValue (registeredRoutes r)))]
  ∧ providersFor tANALYZE_FOR_ENTRY_COMPONENTS (registrationProviders r)
    = [mkProvider tANALYZE_FOR_ENTRY_COMPONENTS true
         (useValue (routesValue (registeredRoutes r)))].
Proof. by destruct r. Qed.

Lemma resolveMulti_routes (l : Layer) :
  resolveMulti tROUTES (layerProviders l)
  = (λ r, useValue (routesValue (registeredRoutes r))) <$> l.
Proof.
  unfold resolveMulti. induction l as [|r l IH]; [done|].
  rewrite layerProviders_cons, providersFor_app, fmap_app, IH.
  by rewrite (proj1 (providersFor_registration_routes r)).
Qed.

Lemma resolveMulti_analyze (l : Layer) :
  resolveMulti tANALYZE_FOR_ENTRY_COMPONENTS (layerProviders l)
  = (λ r, useValue (routesValue (registeredRoutes r))) <$> l.
Proof.
  unfold resolveMulti. induction l as [|r l IH]; [done|].
  rewrite layerProviders_cons, providersFor_app, fmap_app, IH.
  by rewrite (proj2 (providersFor_registration_routes r)).
Qed.

(** Whatever registrations a layer holds, the route tables handed to the
    Router are the registered ones, one per registration and in registration
    order, and the same values in the same order are handed to the
    entry-component analysis. *)
Theorem route_tables_registered_in_order :
  ∀ l : Layer,
    contributedRoutes (layerProviders l) = registeredRoutes <$> l
    ∧ resolveMulti tROUTES (layerProviders l)
      = (λ r, useValue (routesValue (registeredRoutes r))) <$> l
    ∧ resolveMulti tANALYZE_FOR_ENTRY_COMPONENTS (layerProviders l)
      = resolveMulti tROUTES (layerProviders l)
    ∧ Forall (λ p, multi p = true) (providersFor tROUTES (layerProviders l)).
Proof.
  intros l. split; [|split; [|split]].
  - unfold contributedRoutes. rewrite resolveMulti_routes.
    induction l as [|r l IH]; [done|]. cbn. by rewrite IH.
  - apply resolveMulti_routes.
  - by rewrite resolveMulti_routes, resolveMulti_analyze.
  - induction l as [|r l IH]; [constructor|].
    rewrite layerProviders_cons, providersFor_app.
    apply Forall_app. split; [|done].
    rewrite (proj1 (providersFor_registration_routes r)). by repeat constructor.
Qed.

(** Child registrations register route tables and nothing else: two
    providers per registration, for the [ROUTES] token and for the
    entry-component analysis; no Router, no guard, no configuration, no
    location or preloading strategy, no lifecycle hook. *)
Theorem child_registrations_provide_routes_only :
  ∀ kids : list Routes,
    Forall (λ p, provide p = tANALYZE_FOR_ENTRY_COMPONENTS ∨ provide p = tROUTES)
           (layerProviders (childLayer kids))
    ∧ length (layerProviders (childLayer kids)) = 2 * length kids
    ∧ resolveRecipe tRouter (layerProviders (childLayer kids)) = None
    ∧ resolveRecipe tROUTER_CONFIGURATION (layerProviders (childLayer kids)) = None
    ∧ resolveRecipe tLocationStrategy (layerProviders (childLayer kids)) = None
    ∧ resolveRecipe tPreloadingStrategy (layerProviders (childLayer kids)) = None
    ∧ resolveMulti tAPP_INITIALIZER (layerProviders (childLayer kids)) = []
    ∧ resolveMulti tAPP_BOOTSTRAP_LISTENER (layerProviders (childLayer kids)) = [].
Proof.
  intros kids. split; [|split].
  - unfold childLayer. induction kids as [|k kids IH]; [constructor|].
    rewrite fmap_cons, layerProviders_cons. apply Forall_app. split; [|done].
    cbn. constructor; [by left|]. constructor; [by right|constructor].
  - unfold childLayer. induction kids as [|k kids IH]; [done|].
    rewrite fmap_cons, layerProviders_cons, length_app, IH. cbn. lia.
  - unfold resolveRecipe, resolveMulti.
    by rewrite !providersFor_children by done.
Qed.

(** Every factory of a root registration finds its dependencies: each one is
    optional, comes from the platform, or is registered by [forRoot] itself.
    The two built-in preloading strategies are registered too, so the
    [PreloadingStrategy] alias resolves for them and when none is configured;
    a strategy of the application is not registered by [forRoot]. *)
Theorem forRoot_dependencies_registered :
  ∀ (routes : Routes) (config : option ExtraOptions) (n : nat),
    let ps := providers (forRoot routes config) in
    forallb (λ p, bool_decide (provide p = tPreloadingStrategy)
                  || recipeSatisfied ps (recipe p)) ps = true
    ∧ provided tNoPreloading ps = true
    ∧ provided tPreloadAllModules ps = true
    ∧ provided (tUser n) ps = false
    ∧ recipeSatisfied (providers (forRoot routes None)) (useExisting (selectPreloading None))
      = true.
Proof. intros. by repeat split. Qed.

Lemma guard_providers (l : Layer) :
  Forall (λ p, p = mkProvider tROUTER_FORROOT_GUARD false
                     (useFactory fProvideForRootGuard [mkDep tRouter true true]))
         (providersFor tROUTER_FORROOT_GUARD (layerProviders l)).
Proof.
  induction l as [|r l IH]; [constructor|].
  rewrite layerProviders_cons, providersFor_app. apply Forall_app. split; [|done].
  destruct r as [routes config|routes]; cbn [registrationProviders].
  - rewrite providersFor_forRoot_guard. by repeat constructor.
  - change (providers (forChild routes)) with (layerProviders (childLayer [routes] )).
    rewrite providersFor_children by done. constructor.
Qed.

(** In the outermost injector the guard never throws, however many root
    registrations that layer holds: it is given the Router of the ancestors
    only, and there is none.  A second root registration is caught only in
    a layer below. *)
Theorem guard_silent_in_outermost_layer :
  ∀ (l : Layer) (lazy_layers : list (list Routes)),
    instantiateGuard [layerProviders l]
    = (if provided tROUTER_FORROOT_GUARD (layerProviders l)
       then Returns (Some "guarded") else Returns None)
    ∧ compose (l :: (childLayer <$> lazy_layers)) = Returns ().
Proof.
  intros l lazy_layers.
  assert (instantiateGuard [layerProviders l]
          = (if provided tROUTER_FORROOT_GUARD (layerProviders l)
             then Returns (Some "guarded") else Returns None)) as Hg.
  { unfold instantiateGuard, resolveRecipe, provided.
    pose proof (guard_providers l) as Hall.
    destruct (providersFor tROUTER_FORROOT_GUARD (layerProviders l)) as [|p ps] eqn:E.
    - done.
    - rewrite bool_decide_true by done.
      assert (last (p :: ps) = Some (mkProvider tROUTER_FORROOT_GUARD false
                (useFactory fProvideForRootGuard [mkDep tRouter true true]))) as ->.
      { destruct (last (p :: ps)) as [q|] eqn:Hl.
        - f_equal. apply (proj1 (Forall_forall _ _) Hall q).
          by apply last_Some_elem_of.
        - by apply last_None in Hl. }
      reflexivity. }
  split; [exact Hg|].
  unfold compose. cbn [composeUnder]. rewrite Hg.
  destruct (provided tROUTER_FORROOT_GUARD (layerProviders l));
    apply composeUnder_children.
Qed.

(** ** What the tracing listener writes *)

Lemma groupsClosed_app (c1 c2 : list (Writer * ConsoleCall)) (inGroup : bool) :
  groupsClosed inGroup c1 = true →
  groupsClosed inGroup (c1 ++ c2) = groupsClosed false c2.
Proof.
  revert inGroup. induction c1 as [|[who c] c1 IH]; intros inGroup H.
  - cbn in H. by destruct inGroup.
  - rewrite <- app_comm_cons.
    destruct who, c, inGroup; cbn [groupsClosed negb andb] in *;
      first [discriminate | by apply IH].
Qed.

Lemma groupsClosed_application (out : list ConsoleCall) :
  groupsClosed false (written byApplication out) = true.
Proof. induction out as [|c out IH]; [done|]. exact IH. Qed.

Section TracingOutput.
Context {W : Type}.
Variable handler : nat → Event → W → W * list ConsoleCall.
Variable engine : W → option (Action * W).

Lemma notify_keeps_groups_closed (e : Event) (s : Subscriber) (x : @Observation W) :
  groupsClosed false (console x) = true →
  groupsClosed false (console (notify handler e x s)) = true.
Proof.
  intros H. destruct s as [|id]; cbn.
  - by rewrite groupsClosed_app.
  - destruct (handler id e (app x)) as [w out]. cbn.
    rewrite groupsClosed_app by done. apply groupsClosed_application.
Qed.

Lemma emit_keeps_groups_closed (e : Event) (observers : list Subscriber)
    (x : @Observation W) :
  groupsClosed false (console x) = true →
  groupsClosed false (console (emit handler e observers x)) = true.
Proof.
  intros H. unfold emit.
  assert (groupsClosed false
            (console (mkObservation (app x) (console x) (deliveries x)
                        (emissions x ++ [e]))) = true) as H0 by done.
  revert H0. generalize (mkObservation (app x) (console x) (deliveries x)
                           (emissions x ++ [e])).
  induction observers as [|s observers IH]; intros y Hy; [done|].
  cbn [foldl]. by apply IH, notify_keeps_groups_closed.
Qed.

Lemma drive_keeps_groups_closed (fuel : nat) (r : Router) (x : @Observation W) :
  groupsClosed false (console x) = true →
  groupsClosed false (console (drive handler engine fuel r x).2) = true.
Proof.
  revert r x. induction fuel as [|fuel IH]; intros r x H; [done|].
  cbn [drive]. destruct (engine (app x)) as [[[e|id|out] w]|]; [| | |done].
  - by apply IH, emit_keeps_groups_closed.
  - by apply IH.
  - apply IH. cbn. rewrite groupsClosed_app by done. apply groupsClosed_application.
Qed.

(** The listener never leaves one of its console groups open and never
    nests them, its log lines always sit inside its groups, and nothing the
    application or another subscriber writes falls inside one: at any point
    of a traced run the console is a sequence of complete groups of the
    listener and of calls made outside them. *)
Theorem traced_console_groups_closed :
  ∀ (ref : ApplicationRefHandle) (us : UrlSerializer) (om : RouterOutletMap)
    (loc : Location) (inj : Injector) (ld : NgModuleFactoryLoader) (cmp : Compiler)
    (config : list Routes) (hash nav : option bool) (h : option ErrorHandler)
    (strategy : option Token) (fuel : nat) (w : W),
    groupsClosed false
      (console
         (drive handler engine fuel
            (setupRouter ref us om loc inj ld cmp config
               (Some (mkExtraOptions (Some true) hash nav h strategy)))
            (start w)).2)
    = true.
Proof. intros. by apply drive_keeps_groups_closed. Qed.

End TracingOutput.

(** ** Calls made during startup *)

Lemma step_calls (opts : ExtraOptions) (w : World) (e : Step) :
  calls (step opts w e) = calls w ++ stepCalls opts e.
Proof.
  destruct e as [p|s|ref c]; cbn.
  - destruct p; [|by rewrite app_nil_r]. cbn. unfold appInitializerBody.
    by destruct (strictly_false (initialNavigation opts)).
  - rewrite app_nil_r. unfold afterPreactivation.
    destruct (router_afterPreactivation (router w)); [done|].
    unfold interception. by destruct (negb (truthy (initSnapshot w))).
  - unfold bootstrapListener, isRootReport.
    case_decide as Hne.
    + rewrite bool_decide_false by congruence. by rewrite app_nil_r.
    + rewrite bool_decide_true; [done|].
      destruct (decide (head (components ref) = Some c)) as [|Hd]; [done|].
      exfalso. apply Hd. by destruct (head (components ref)); naive_solver.
Qed.

(** The calls made on the Router and the preloader are fixed by the steps
    and the options alone: the initializer makes one call per run (to start
    the initial navigation, or to listen only), every report of the first
    component makes the preloading call followed by the reset of the root
    component type, and neither the interception nor a report of another
    component calls anything.  In particular preloading is set up again on
    every report of the first component. *)
Theorem calls_follow_steps :
  ∀ (opts : ExtraOptions) (es : list Step) (w : World),
    calls (run opts es w) = calls w ++ flat_map (stepCalls opts) es.
Proof.
  intros opts es. induction es as [|e es IH]; intros w.
  - by rewrite app_nil_r.
  - rewrite run_cons, IH, step_calls. cbn [flat_map]. by rewrite app_assoc.
Qed.

(** ** Promises of the initializer *)

Lemma settle_length (k : nat) (v : value) (ps : list PromiseState) :
  length (settle k v ps) = length ps.
Proof.
  unfold settle. destruct (ps !! k) as [[| |]|]; try done. apply length_insert.
Qed.

Lemma Tracked_initial (r : Router) :
  router_afterPreactivation r = defaultHook → Tracked (initialWorld r).
Proof.
  intros Hr. split; cbn.
  - intros k. by rewrite Hr.
  - intros _. split; [done|constructor].
  - done.
Qed.

Lemma Tracked_more_pending (w : World) (r : Router) (cs : list Call) :
  Tracked w →
  (∀ k, router_afterPreactivation r = initializerHook k → k < S (length (promises w))) →
  Tracked (mkWorld (initSnapshot w) (resultOfPreactivationDone w) r
                   (promises w ++ [pending]) cs).
Proof.
  intros [Hhook Hunset Hset] Hr. split; cbn.
  - intros k Hk. rewrite length_app. cbn. specialize (Hr k Hk). lia.
  - intros Hu. destruct (Hunset Hu) as [-> Hp]. split; [done|].
    apply Forall_app. split; [done|]. by repeat constructor.
  - intros Hs. destruct (Hset Hs) as (k & Hk & Hothers). exists k. split.
    + by apply lookup_app_l_Some.
    + intros j p Hj Hl. apply lookup_app_Some in Hl as [Hl|[_ Hl]].
      * by apply (Hothers j).
      * apply list_elem_of_lookup_2, list_elem_of_singleton in Hl. done.
Qed.

Lemma Tracked_step (opts : ExtraOptions) (w : World) (e : Step) :
  Tracked w → Tracked (step opts w e).
Proof.
  intros Hw. destruct e as [p|s|ref c]; cbn.
  - destruct p; [|done]. cbn. unfold appInitializerBody.
    destruct (strictly_false (initialNavigation opts)).
    + apply Tracked_more_pending; [done|].
      intros k Hk. pose proof (hook_promise_exists w Hw k Hk). lia.
    + apply Tracked_more_pending; [done|].
      cbn. intros k [= <-]. lia.
  - unfold afterPreactivation.
    destruct (router_afterPreactivation (router w)) as [|k] eqn:Hk; [done|].
    unfold interception. destruct (truthy (initSnapshot w)) eqn:Ht; cbn; [done|].
    destruct Hw as [Hhook Hunset _].
    destruct (Hunset Ht) as [_ Hpend]. specialize (Hhook k Hk).
    assert (promises w !! k = Some pending) as Hlook.
    { destruct (lookup_lt_is_Some_2 _ _ Hhook) as [p Hp].
      by rewrite Hp, (proj1 (Forall_lookup _ _) Hpend k p Hp). }
    unfold settle. rewrite Hlook. split; cbn.
    + intros k'. rewrite Hk. intros [= <-]. by rewrite length_insert.
    + done.
    + intros _. exists k. split; [by apply list_lookup_insert_eq|].
      intros j p Hj. rewrite list_lookup_insert_ne by done.
      intros Hp. by apply (proj1 (Forall_lookup _ _) Hpend j p).
  - unfold bootstrapListener. case_decide; [done|].
    destruct Hw as [Hhook Hunset Hset]. by split.
Qed.

Lemma Tracked_run (opts : ExtraOptions) (es : list Step) (w : World) :
  Tracked w → Tracked (run opts es w).
Proof.
  revert w. induction es as [|e es IH]; intros w Hw; [done|].
  rewrite run_cons. by apply IH, Tracked_step.
Qed.

Lemma one_fulfilled_shape (ps : list PromiseState) (k : nat) :
  ps !! k = Some (fulfilled (boolean true)) →
  (∀ j p, j ≠ k → ps !! j = Some p → p = pending) →
  ps = replicate k pending ++ fulfilled (boolean true)
       :: replicate (length ps - S k) pending.
Proof.
  intros Hk Hothers.
  rewrite <- (take_drop_middle ps k _ Hk) at 1.
  pose proof (lookup_lt_Some _ _ _ Hk) as Hlt.
  f_equal; [|f_equal].
  - rewrite <- (length_take_le ps k) at 2 by lia.
    symmetry. apply replicate_as_Forall. split; [done|].
    apply Forall_lookup. intros j p Hj.
    pose proof (lookup_lt_Some _ _ _ Hj) as Hjl. rewrite length_take in Hjl.
    rewrite lookup_take_lt in Hj by lia. symmetry. apply (Hothers j); [lia|done].
  - replace (length ps - S k) with (length (drop (S k) ps)) by (rewrite length_drop; lia).
    symmetry. apply replicate_as_Forall. split; [done|].
    apply Forall_lookup. intros j p Hj.
    rewrite lookup_drop in Hj. symmetry. apply (Hothers (S k + j)); [lia|done].
Qed.

Lemma existsb_replicate_pending (n : nat) :
  existsb fulfilledPromise (replicate n pending) = false.
Proof. induction n; [done|]. cbn. exact IHn. Qed.

Lemma Forall_replicate_pending (n : nat) :
  Forall (λ p, p = pending ∨ p = fulfilled (boolean true)) (replicate n pending).
Proof. apply Forall_replicate. by left. Qed.

(** Whatever the order of initializer runs, navigations and component
    reports, the promises created by the initializer have this shape: all
    pending while no snapshot is captured, and from the capture on exactly
    one fulfilled, with [true], among pending ones.  So a snapshot is
    captured exactly when some initializer promise is fulfilled, and no
    promise is ever rejected or fulfilled with another value. *)
Theorem one_promise_fulfilled_on_capture :
  ∀ (ref : ApplicationRefHandle) (us : UrlSerializer) (om : RouterOutletMap)
    (loc : Location) (inj : Injector) (ld : NgModuleFactoryLoader) (cmp : Compiler)
    (config : list Routes) (made : option ExtraOptions)
    (opts : ExtraOptions) (es : list Step),
    let w := run opts es (initialWorld (setupRouter ref us om loc inj ld cmp config made)) in
    truthy (initSnapshot w) = earlyPhaseFulfilled w
    ∧ Forall (λ p, p = pending ∨ p = fulfilled (boolean true)) (promises w)
    ∧ ∃ before after,
        promises w
        = replicate before pending
          ++ (if truthy (initSnapshot w)
              then fulfilled (boolean true) :: replicate after pending
              else []).
Proof.
  intros. 
  assert (Tracked w) as [_ Hunset Hset].
  { subst w. apply Tracked_run, Tracked_initial, setupRouter_default_hook. }
  unfold earlyPhaseFulfilled.
  destruct (truthy (initSnapshot w)) eqn:Ht.
  - destruct (Hset eq_refl) as (k & Hk & Hothers).
    pose proof (one_fulfilled_shape _ _ Hk Hothers) as Hshape.
    rewrite Hshape. split; [|split].
    + rewrite existsb_app. cbn. by rewrite orb_true_r.
    + apply Forall_app. split; [apply Forall_replicate_pending|].
      constructor; [by right|apply Forall_replicate_pending].
    + by eexists _, _.
  - destruct (Hunset eq_refl) as [_ Hpend].
    assert (promises w = replicate (length (promises w)) pending) as Hshape.
    { symmetry. apply replicate_as_Forall. split; [done|].
      eapply Forall_impl; [exact Hpend|]. by intros p ->. }
    rewrite Hshape. split; [|split].
    + by rewrite existsb_replicate_pending.
    + apply Forall_replicate_pending.
    + exists (length (promises w)), 0. by rewrite app_nil_r.
Qed.

(** ** Steps out of the expected order *)

Lemma step_promises_after_capture (opts : ExtraOptions) (w : World) (e : Step) :
  isSet (initSnapshot w) →
  ∃ n, promises (step opts w e) = promises w ++ replicate n pending.
Proof.
  intros Hset. destruct e as [p|s|ref c]; cbn.
  - destruct p; [|exists 0; by rewrite app_nil_r]. cbn. unfold appInitializerBody.
    exists 1. by destruct (strictly_false (initialNavigation opts)).
  - exists 0. rewrite app_nil_r. unfold afterPreactivation.
    destruct (router_afterPreactivation (router w)); [done|].
    by rewrite interception_later.
  - exists 0. rewrite app_nil_r. unfold bootstrapListener. by case_decide.
Qed.

Lemma run_promises_after_capture (opts : ExtraOptions) (es : list Step) (w : World) :
  isSet (initSnapshot w) →
  ∃ n, promises (run opts es w) = promises w ++ replicate n pending.
Proof.
  revert w. induction es as [|e es IH]; intros w Hset.
  - exists 0. by rewrite app_nil_r.
  - rewrite run_cons.
    destruct (step_promises_after_capture opts w e Hset) as [n1 H1].
    destruct (IH (step opts w e)) as [n2 H2].
    { unfold isSet. by rewrite step_keeps_snapshot. }
    exists (n1 + n2). by rewrite H2, H1, <- app_assoc, replicate_add.
Qed.

(** An initializer that runs once a snapshot has been captured gets a
    promise nobody will settle: the interception it installs takes the
    pass-through branch for ever, so the returned promise stays pending in
    every continuation, while the promises that existed keep their state. *)
Theorem initializer_after_capture_never_settles :
  ∀ (opts : ExtraOptions) (w : World) (es : list Step),
    isSet (initSnapshot w) →
    let again := appInitializer settlesOk opts w in
    again.1 = follows (length (promises w))
    ∧ returnedSettled again.1 (run opts es again.2) = false
    ∧ take (length (promises w)) (promises (run opts es again.2)) = promises w.
Proof.
  intros opts w es Hset again.
  assert (again.1 = follows (length (promises w))
          ∧ promises again.2 = promises w ++ [pending]
          ∧ initSnapshot again.2 = initSnapshot w) as (Hret & Hprom & Hsnap).
  { subst again. cbn. unfold appInitializerBody.
    by destruct (strictly_false (initialNavigation opts)). }
  destruct (run_promises_after_capture opts es again.2) as [n Hn].
  { unfold isSet. by rewrite Hsnap. }
  rewrite Hret. split; [done|]. split.
  - unfold returnedSettled. rewrite Hn, Hprom, <- app_assoc.
    rewrite lookup_app_r by done. by rewrite Nat.sub_diag.
  - rewrite Hn, Hprom, <- app_assoc. by rewrite take_app_length.
Qed.

(** After one navigation the initializer is run again: its promise stays
    pending through a further navigation and a report of the root. *)
Lemma initializer_after_capture_never_settles_witness :
  let opts := emptyOptions in
  let r := newRouter None 0 0 0 0 0 0 [] in
  let w := run opts [runAppInitializer settlesOk; preactivation 11] (initialWorld r) in
  let es := [preactivation 12; bootstrapped (mkApplicationRef [7] [3]) 7] in
  isSet (initSnapshot w)
  ∧ returnedSettled (follows 1) (run opts es (appInitializer settlesOk opts w).2) = false.
Proof.
  intros opts r w es.
  assert (isSet (initSnapshot w)) as Hset by reflexivity.
  split; [exact Hset|].
  exact (proj1 (proj2 (initializer_after_capture_never_settles opts w es Hset))).
Defined.

Lemma run_append (opts : ExtraOptions) (es1 es2 : list Step) (w : World) :
  run opts (es1 ++ es2) w = run opts es2 (run opts es1 w).
Proof. unfold run. apply foldl_app. Qed.

Lemma step_without_preactivation (opts : ExtraOptions) (w : World) (e : Step) :
  ¬ isPreactivation e → initSnapshot (step opts w e) = initSnapshot w.
Proof.
  destruct e as [p|s|ref c]; cbn; intros He; [|done|].
  - destruct p; [|done]. cbn. unfold appInitializerBody.
    by destruct (strictly_false (initialNavigation opts)).
  - unfold bootstrapListener. by case_decide.
Qed.

Lemma early_subject (opts : ExtraOptions) (es : list Step) (w : World) :
  Forall (λ e, ¬ isPreactivation e) es →
  initSnapshot w = undefined →
  resultOfPreactivationDone w = Rx.fresh
  ∨ resultOfPreactivationDone w = Rx.mkSubject true [undefined] →
  initSnapshot (run opts es w) = undefined
  ∧ (resultOfPreactivationDone (run opts es w) = Rx.fresh
     ∨ resultOfPreactivationDone (run opts es w) = Rx.mkSubject true [undefined]).
Proof.
  intros Hes. revert w. induction Hes as [|e es He _ IH]; intros w Hsnap Hsub; [done|].
  rewrite run_cons. apply IH.
  - by rewrite step_without_preactivation.
  - destruct e as [p|s|ref c]; [|by destruct He|].
    + by rewrite step_resolves_only_by_bootstrap by (by intros []).
    + cbn. unfold bootstrapListener. case_decide; [done|]. cbn. right.
      rewrite Hsnap. by destruct Hsub as [-> | ->].
Qed.

(** If the first component is reported before any navigation has reached
    the interception, the held subject emits [undefined] and completes.
    Whatever follows, it emits nothing more: the snapshot captured by a
    later first navigation is never delivered through it. *)
Theorem early_report_releases_undefined :
  ∀ (opts : ExtraOptions) (r : Router) (es1 es2 : list Step)
    (ref : ApplicationRef) (c : ComponentRef),
    Forall (λ e, ¬ isPreactivation e) es1 →
    head (components ref) = Some c →
    resultOfPreactivationDone
      (run opts (es1 ++ bootstrapped ref c :: es2) (initialWorld r))
    = Rx.mkSubject true [undefined].
Proof.
  intros opts r es1 es2 ref c Hes1 Hroot.
  rewrite run_append, run_cons.
  destruct (early_subject opts es1 (initialWorld r) Hes1 eq_refl (or_introl eq_refl))
    as [Hsnap Hsub].
  assert (resultOfPreactivationDone
            (step opts (run opts es1 (initialWorld r)) (bootstrapped ref c))
          = Rx.mkSubject true [undefined]) as Hrel.
  { cbn. unfold bootstrapListener. case_decide; [congruence|]. cbn.
    rewrite Hsnap. by destruct Hsub as [-> | ->]. }
  rewrite run_keeps_stopped_subject; rewrite Hrel; done.
Qed.

(** The root is reported right after the initializer; the navigation that
    follows captures its snapshot, which the subject never emits. *)
Lemma early_report_releases_undefined_witness :
  let opts := emptyOptions in
  let r := newRouter None 0 0 0 0 0 0 [] in
  let ref := mkApplicationRef [7] [3] in
  let w := run opts ([runAppInitializer settlesOk] ++ bootstrapped ref 7 :: [preactivation 11])
               (initialWorld r) in
  Forall (λ e, ¬ isPreactivation e) [runAppInitializer settlesOk]
  ∧ head (components ref) = Some 7
  ∧ initSnapshot w = snapshot 11
  ∧ resultOfPreactivationDone w = Rx.mkSubject true [undefined].
Proof.
  intros opts r ref w.
  assert (Forall (λ e, ¬ isPreactivation e) [runAppInitializer settlesOk]) as Hes
    by (repeat constructor; by intros []).
  split; [exact Hes|]. split; [reflexivity|]. split; [reflexivity|].
  exact (early_report_releases_undefined opts r [runAppInitializer settlesOk]
           [preactivation 11] ref 7 Hes eq_refl).
Defined.

Lemma idle_keeps_snapshot (opts : ExtraOptions) (es : list Step) (w : World) :
  initialNavigation opts = Some false → idle w →
  initSnapshot (run opts es w) = initSnapshot w.
Proof.
  intros Hnav. revert w. induction es as [|e es IH]; intros w Hw; [done|].
  rewrite run_cons, IH by by apply idle_step.
  destruct e as [p|s|ref c].
  - apply step_without_preactivation. by intros [].
  - cbn. unfold afterPreactivation. by rewrite (proj1 Hw).
  - apply step_without_preactivation. by intros [].
Qed.

(** With [initialNavigation: false] no navigation is ever intercepted: at
    any point of any run the engine finds its own hook in the slot, so
    nothing is captured and no navigation waits for the bootstrap. *)
Theorem listen_only_never_intercepts :
  ∀ (ref : ApplicationRefHandle) (us : UrlSerializer) (om : RouterOutletMap)
    (loc : Location) (inj : Injector) (ld : NgModuleFactoryLoader) (cmp : Compiler)
    (config : list Routes) (tracing hash : option bool) (handler : option ErrorHandler)
    (strategy : option Token) (es : list Step) (s : value),
    let opts := mkExtraOptions tracing hash (Some false) handler strategy in
    let w := run opts es
               (initialWorld (setupRouter ref us om loc inj ld cmp config (Some opts))) in
    afterPreactivation s w = (None, w)
    ∧ initSnapshot w = undefined
    ∧ earlyPhaseFulfilled w = false.
Proof.
  intros.
  assert (idle (initialWorld (setupRouter ref us om loc inj ld cmp config (Some opts))))
    as Hidle.
  { split; cbn; [apply setupRouter_default_hook|constructor]. }
  pose proof (idle_run opts es _ eq_refl Hidle) as [Hhook Hpend]. fold w in Hhook, Hpend.
  split; [|split].
  - unfold afterPreactivation. by rewrite Hhook.
  - subst w. by rewrite idle_keeps_snapshot.
  - unfold earlyPhaseFulfilled.
    induction Hpend as [|p ps -> _ IH]; [done|]. cbn. exact IH.
Qed.

(** The interception tests [initSnapshot] for truthiness.  Given a falsy
    argument while nothing is captured it still fulfils the initializer's
    promise and returns the held subject, but counts as no capture: the
    next invocation is treated as the first again and stores its own
    argument. *)
Theorem interception_falsy_argument_not_a_capture :
  ∀ (k : nat) (s s' : value) (w : World),
    truthy (initSnapshot w) = false →
    truthy s = false →
    promises w !! k = Some pending →
    let first := interception k s w in
    let second := interception k s' first.2 in
    first.1 = resultSubject
    ∧ promises first.2 !! k = Some (fulfilled (boolean true))
    ∧ second.1 = resultSubject
    ∧ initSnapshot second.2 = s'
    ∧ promises second.2 = promises first.2.
Proof.
  intros k s s' w Hunset Hs Hk first second.
  assert (first = (resultSubject,
            mkWorld s (resultOfPreactivationDone w) (router w)
                    (<[k := fulfilled (boolean true)]> (promises w)) (calls w))) as Hfirst.
  { subst first. rewrite interception_first by done. unfold settle. by rewrite Hk. }
  assert (promises first.2 !! k = Some (fulfilled (boolean true))) as Hk'.
  { rewrite Hfirst. cbn. apply list_lookup_insert_eq. by eapply lookup_lt_Some. }
  subst second. rewrite interception_first by (by rewrite Hfirst).
  cbn. unfold settle. rewrite Hk'. by rewrite Hfirst.
Qed.

Lemma interception_falsy_argument_not_a_capture_witness :
  let w := mkWorld undefined Rx.fresh
             (setAfterPreactivation (initializerHook 0) (newRouter None 0 0 0 0 0 0 []))
             [pending] [callInitialNavigation] in
  truthy (initSnapshot w) = false
  ∧ truthy null = false
  ∧ promises w !! 0 = Some pending
  ∧ initSnapshot (interception 0 (snapshot 5) (interception 0 null w).2).2 = snapshot 5.
Proof.
  intros w.
  split; [reflexivity|]. split; [reflexivity|]. split; [reflexivity|].
  exact (proj1 (proj2 (proj2 (proj2
    (interception_falsy_argument_not_a_capture 0 null (snapshot 5) w
       eq_refl eq_refl eq_refl))))).
Defined.
